(** * Ship game: turn engine, direction tables and line parser of [main.py]

    Python integers are unbounded, so coordinates, the board size and turn
    numbers are [Z].  A Python [str] is a [list ascii]; the model covers text
    whose code points are below 256.  The board is the Python dict
    [{(x, y): (direction, alive)}], a [gmap (Z * Z) (Heading * bool)].
    A function that mutates the board in place and may raise returns the
    outcome together with the board as the caller sees it afterwards. *)

From Stdlib Require Import ZArith List Ascii String Bool Lia.
From Stdlib Require DecimalString DecimalPos.
From stdpp Require Import base option gmap fin_maps sorting.

Import ListNotations.
Local Open Scope Z_scope.

(** A Python string literal. *)
Abbreviation py s := (list_ascii_of_string s).

(* ===================================================================== *)
(** ** Records, exceptions and results (main.py 7-26) *)
(* ===================================================================== *)

(** The four direction strings ['N'], ['S'], ['E'], ['W']. *)
Inductive Heading : Type := N | S | E | W.

Definition Heading_eqb (a b : Heading) : bool :=
  match a, b with
  | N, N | S, S | E, E | W, W => true
  | _, _ => false
  end.

#[global] Instance Heading_eq_dec : EqDecision Heading.
Proof. solve_decision. Defined.

(** [Ship = namedtuple('Ship', ['x', 'y', 'direction', 'alive'])] *)
Record Ship : Type := mkShip {
  ship_x : Z;
  ship_y : Z;
  direction : Heading;
  alive : bool
}.

(** [MovementTurn], [ShootingTurn]; [OtherTurn] stands for any object that is
    an instance of neither, which [process_turn] rejects. *)
Inductive Turn : Type :=
  | MovementTurn (ship_x ship_y : Z) (actions : list ascii)
  | ShootingTurn (target_x target_y : Z)
  | OtherTurn.

(** The exceptions of main.py with their arguments, the two built-in ones the
    loop of [process_move] can raise, and the built-in ones of the parser. *)
Inductive Exn : Type :=
  | InvalidTurnType
  | MoveOutsideBoard (turn_number x y : Z)
  | MovingSunkShip (turn_number x y : Z)
  | NoShipAtLocation (turn_number x y : Z)
  | ShipAtMoveTarget (turn_number x y : Z)
  | AssertionError
  | KeyError
  | AttributeError
  | IndexError
  | ValueError.

(** The action (result) records of a turn. *)
Inductive Action : Type :=
  | MovedShip (start_x start_y : Z) (start_direction : Heading)
              (end_x end_y : Z) (end_direction : Heading)
  | ShotNoTarget (target_x target_y : Z)
  | SunkAliveShip (ship_x ship_y : Z)
  | SunkDeadShip (ship_x ship_y : Z).

Inductive Outcome (A : Type) : Type :=
  | Returns (a : A)
  | Raises (e : Exn).
Arguments Returns {A} a.
Arguments Raises {A} e.

Abbreviation Location := (Z * Z)%type.
Abbreviation Board := (gmap (Z * Z) (Heading * bool)).

(* ===================================================================== *)
(** ** Direction tables (main.py 33-45) *)
(* ===================================================================== *)

(** A dict literal with few keys, looked up by key equality. *)
Fixpoint dict_get {K V : Type} (eqb : K -> K -> bool) (d : list (K * V)) (k : K)
  : option V :=
  match d with
  | [] => None
  | (k', v) :: d' => if eqb k' k then Some v else dict_get eqb d' k
  end.

Definition DIRECTION_TRANSITIONS : list (Heading * list (ascii * Heading)) :=
  [ (N, [("L"%char, W); ("R"%char, E)]);
    (S, [("L"%char, E); ("R"%char, W)]);
    (E, [("L"%char, N); ("R"%char, S)]);
    (W, [("L"%char, S); ("R"%char, N)]) ].

Definition DIRECTION_DELTAS : list (Heading * (Z * Z)) :=
  [ (N, ( 0,  1));
    (S, ( 0, -1));
    (W, (-1,  0));
    (E, ( 1,  0)) ].

(** [DIRECTION_TRANSITIONS[direction][action]]; [None] is a [KeyError]. *)
Definition rotate (h : Heading) (action : ascii) : option Heading :=
  match dict_get Heading_eqb DIRECTION_TRANSITIONS h with
  | Some row => dict_get Ascii.eqb row action
  | None => None
  end.

(** [DIRECTION_DELTAS[direction]]; [None] is a [KeyError]. *)
Definition delta (h : Heading) : option (Z * Z) :=
  dict_get Heading_eqb DIRECTION_DELTAS h.

(* ===================================================================== *)
(** ** The turn engine (main.py 93-163) *)
(* ===================================================================== *)

(** The [for action in turn.actions] loop of [process_move] (132-138) over the
    local variables [location] and [direction]. *)
Fixpoint move_loop (actions : list ascii) (location : Location) (dir : Heading)
  : Outcome (Location * Heading) :=
  match actions with
  | [] => Returns (location, dir)
  | action :: rest =>
      if Ascii.eqb action "L" || Ascii.eqb action "R" then
        match rotate dir action with
        | Some dir' => move_loop rest location dir'
        | None => Raises KeyError
        end
      else if Ascii.eqb action "M" then
        match delta dir with
        | Some d => move_loop rest (location.1 + d.1, location.2 + d.2) dir
        | None => Raises KeyError
        end
      else Raises AssertionError
  end.

(** [process_move] (118-150).  A board value is a 2-tuple, hence truthy, so
    [if not ship] and [if board.get(location)] test presence only. *)
Definition process_move (board_size : Z) (board : Board) (turn_number : Z)
    (ship_x ship_y : Z) (actions : list ascii) : Outcome Action * Board :=
  let location := (ship_x, ship_y) in
  match board !! location with
  | None => (Raises (NoShipAtLocation turn_number ship_x ship_y), board)
  | Some ship =>
      if negb ship.2 then
        (Raises (MovingSunkShip turn_number ship_x ship_y), board)
      else
        let board := delete location board in
        let start_direction := ship.1 in
        let start_location := location in
        match move_loop actions location ship.1 with
        | Raises e => (Raises e, board)
        | Returns (location, dir) =>
            if (location.1 <? 0) || (location.2 <? 0)
               || (location.1 >=? board_size) || (location.2 >=? board_size)
            then (Raises (MoveOutsideBoard turn_number location.1 location.2), board)
            else
              match board !! location with
              | Some _ =>
                  (Raises (ShipAtMoveTarget turn_number location.1 location.2), board)
              | None =>
                  (Returns (MovedShip start_location.1 start_location.2
                                      start_direction
                                      location.1 location.2 dir),
                   <[location := (dir, true)]> board)
              end
        end
  end.

(** [process_shoot] (152-163): the entry is rewritten as dead whether or not
    the ship was alive. *)
Definition process_shoot (board_size : Z) (board : Board) (turn_number : Z)
    (target_x target_y : Z) : Outcome Action * Board :=
  match board !! (target_x, target_y) with
  | None => (Returns (ShotNoTarget target_x target_y), board)
  | Some ship =>
      let was_alive : bool := ship.2 in
      let board := <[(target_x, target_y) := (ship.1, false)]> board in
      if was_alive then (Returns (SunkAliveShip target_x target_y), board)
      else (Returns (SunkDeadShip target_x target_y), board)
  end.

(** [process_turn] (93-116). *)
Definition process_turn (board_size : Z) (board : Board) (turn_number : Z)
    (turn : Turn) : Outcome Action * Board :=
  match turn with
  | MovementTurn x y actions => process_move board_size board turn_number x y actions
  | ShootingTurn x y => process_shoot board_size board turn_number x y
  | OtherTurn => (Raises InvalidTurnType, board)
  end.

(* ===================================================================== *)
(** ** The run driver (main.py 165-178) *)
(* ===================================================================== *)

(** The dict comprehension of [run]: ships are stored in list order, a later
    ship replacing an earlier one at the same key. *)
Definition initial_board (initial_ships : list Ship) : Board :=
  fold_left (fun board ship =>
               <[(ship_x ship, ship_y ship) := (direction ship, alive ship)]> board)
            initial_ships ∅.

(** The [for turn_number, turn in enumerate(turns)] loop, from [turn_number].
    [actionList] is the caller's list, [None] when the caller passes none: an
    action is appended after each turn that returns, and the first exception
    ends the run. *)
Fixpoint run_loop (board_size : Z) (board : Board) (turn_number : Z)
    (turns : list Turn) (actionList : option (list Action))
  : Outcome Board * option (list Action) :=
  match turns with
  | [] => (Returns board, actionList)
  | turn :: rest =>
      match process_turn board_size board turn_number turn with
      | (Returns action, board') =>
          run_loop board_size board' (turn_number + 1) rest
                   ((fun l => l ++ [action]) <$> actionList)
      | (Raises e, _) => (Raises e, actionList)
      end
  end.

(** [run] (165-178): the outcome, and the caller's [actionList] afterwards. *)
Definition run (board_size : Z) (initial_ships : list Ship) (turns : list Turn)
    (actionList : option (list Action)) : Outcome Board * option (list Action) :=
  run_loop board_size (initial_board initial_ships) 0 turns actionList.

(* ===================================================================== *)
(** ** Regular expressions: the fragment of [re] the patterns use *)
(* ===================================================================== *)

(** An atom of a pattern.  Every repetition in main.py is over a character
    class and greedy. *)
Inductive atom : Type :=
  | Chr (c : ascii)              (* an escaped literal or a plain character *)
  | Star (p : ascii -> bool)     (* a class, zero or more times *)
  | Plus (p : ascii -> bool).    (* a class, one or more times *)

(** A pattern is a sequence of atoms, each optionally a named group
    [(?P<name>atom)]. *)
Definition regex : Type := list (option string * atom).

(** The named groups of a match, and the text after the match. *)
Definition groups : Type := list (string * list ascii).
Definition match_obj : Type := (groups * list ascii)%type.

Definition bind_group (g : option string) (w : list ascii) (m : match_obj) : match_obj :=
  match g with
  | Some name => ((name, w) :: m.1, m.2)
  | None => m
  end.

(** Greedy repetition with backtracking: take as many characters of the
    class as possible, and give one back each time the rest of the pattern,
    [k], fails. *)
Fixpoint greedy (p : ascii -> bool) (k : list ascii -> option match_obj)
    (s : list ascii) : option (list ascii * match_obj) :=
  match s with
  | c :: s' =>
      if p c then
        match greedy p k s' with
        | Some (w, m) => Some (c :: w, m)
        | None => pair [] <$> k s
        end
      else pair [] <$> k s
  | [] => pair [] <$> k []
  end.

(** [pattern.match]: a match that starts at the beginning of [s]. *)
Fixpoint match_here (r : regex) (s : list ascii) : option match_obj :=
  match r with
  | [] => Some ([], s)
  | (g, a) :: r' =>
      match a with
      | Chr c =>
          match s with
          | x :: s' => if Ascii.eqb x c then bind_group g [x] <$> match_here r' s' else None
          | [] => None
          end
      | Star p =>
          (fun wm : list ascii * match_obj => bind_group g wm.1 wm.2)
            <$> greedy p (match_here r') s
      | Plus p =>
          match s with
          | x :: s' =>
              if p x then
                (fun wm : list ascii * match_obj => bind_group g (x :: wm.1) wm.2)
                  <$> greedy p (match_here r') s'
              else None
          | [] => None
          end
      end
  end.

(** [pattern.search]: the match at the leftmost position that has one. *)
Fixpoint search (r : regex) (s : list ascii) : option match_obj :=
  match match_here r s with
  | Some m => Some m
  | None =>
      match s with
      | [] => None
      | _ :: s' => search r s'
      end
  end.

(** [match.group(name)]; [None] is the [IndexError] of an unknown group. *)
Definition group (m : groups) (name : string) : option (list ascii) :=
  dict_get String.eqb m name.

(** The language of a pattern, piece by piece. *)
Definition atom_lang (a : atom) (w : list ascii) : Prop :=
  match a with
  | Chr c => w = [c]
  | Star p => forallb p w = true
  | Plus p => w <> [] /\ forallb p w = true
  end.

Definition pieces_match (r : regex) (ws : list (list ascii)) : Prop :=
  Forall2 (fun (ga : option string * atom) w => atom_lang ga.2 w) r ws.

Definition regex_lang (r : regex) (w : list ascii) : Prop :=
  exists ws, pieces_match r ws /\ w = concat ws.

(** [s] has a substring in the language of [r]. *)
Definition has_match (r : regex) (s : list ascii) : Prop :=
  exists pre w post, s = pre ++ w ++ post /\ regex_lang r w.

(** The groups a match over the pieces [ws] binds. *)
Fixpoint groups_of (r : regex) (ws : list (list ascii)) : groups :=
  match r, ws with
  | (Some name, _) :: r', w :: ws' => (name, w) :: groups_of r' ws'
  | (None, _) :: r', _ :: ws' => groups_of r' ws'
  | _, _ => []
  end.

(** [s] is empty or starts with a character outside the class [p]. *)
Definition stops (p : ascii -> bool) (s : list ascii) : bool :=
  match s with
  | [] => true
  | c :: _ => negb (p c)
  end.

(** The groups after a piece has matched [w]. *)
Definition add_group (g : option string) (w : list ascii) (gs : groups) : groups :=
  match g with
  | Some name => (name, w) :: gs
  | None => gs
  end.

(** The characters an atom can consume. *)
Definition atom_accepts (a : atom) (c : ascii) : bool :=
  match a with
  | Chr c' => Ascii.eqb c c'
  | Star p => p c
  | Plus p => p c
  end.

Definition regex_accepts (r : regex) (c : ascii) : bool :=
  existsb (fun ga : option string * atom => atom_accepts ga.2 c) r.

(* ===================================================================== *)
(** ** The line parser (main.py 47-91) *)
(* ===================================================================== *)

Definition code (c : ascii) : BinNums.N := N_of_ascii c.

(** [\s] on a [str] pattern and [str.strip()] use the same whitespace: tab to
    carriage return, the four separators 0x1c-0x1f, space, and below 256 also
    NEL and the no-break space. *)
Definition is_space (c : ascii) : bool :=
  let n := code c in
  ((9 <=? n) && (n <=? 13) || (28 <=? n) && (n <=? 32) || (n =? 133) || (n =? 160))%N.

(** [\d]: below 256 the decimal digits are [0-9]. *)
Definition is_digit (c : ascii) : bool :=
  let n := code c in ((48 <=? n) && (n <=? 57))%N.

(** [[LRM]] *)
Definition is_LRM (c : ascii) : bool :=
  Ascii.eqb c "L" || Ascii.eqb c "R" || Ascii.eqb c "M".

(** [TURN_REGEX] (line 53), one atom of the pattern per line. *)
Definition TURN_REGEX : regex :=
  [ (None, Chr "(");                          (* \( *)
    (None, Star is_space);                    (* \s* *)
    (Some "x_coord"%string, Plus is_digit);   (* (?P<x_coord> \d+ ) *)
    (None, Star is_space);                    (* \s* *)
    (None, Chr ",");                          (* , *)
    (None, Star is_space);                    (* \s* *)
    (Some "y_coord"%string, Plus is_digit);   (* (?P<y_coord> \d+ ) *)
    (None, Star is_space);                    (* \s* *)
    (None, Chr ")");                          (* \) *)
    (None, Star is_space);                    (* \s* *)
    (Some "actions"%string, Star is_LRM) ].   (* (?P<actions> [LRM]* ) *)

(** [str.strip()] *)
Fixpoint lstrip (s : list ascii) : list ascii :=
  match s with
  | c :: s' => if is_space c then lstrip s' else s
  | [] => []
  end.

Definition rstrip (s : list ascii) : list ascii := rev (lstrip (rev s)).

Definition strip (s : list ascii) : list ascii := rstrip (lstrip s).

(** The value of a run of decimal digits, most significant first. *)
Definition digits_value (s : list ascii) : Z :=
  fold_left (fun acc c => 10 * acc + (Z.of_N (code c) - 48)) s 0.

(** [sys.get_int_max_str_digits()] at its default: the longest decimal
    string that [int] converts. *)
Definition int_max_str_digits : nat := 4300.

(** [int(s)] on a non-empty run of decimal digits, which is all a [\d+] group
    holds: the value of the run, or [None] for the [ValueError] that [int]
    raises on a run of more than [int_max_str_digits] digits, leading zeros
    counted.  Other arguments are outside the model and give [None] too. *)
Definition int (s : list ascii) : option Z :=
  match s with
  | [] => None
  | _ :: _ =>
      if forallb is_digit s then
        if (int_max_str_digits <? length s)%nat then None
        else Some (digits_value s)
      else None
  end.

(** [FileReader.make_turn_from_line] (71-82).  When the search finds nothing
    [match] is [None] and [match.group] raises [AttributeError]. *)
Definition make_turn_from_line (line : list ascii) : Outcome Turn :=
  match search TURN_REGEX (strip line) with
  | None => Raises AttributeError
  | Some (m, _) =>
      match group m "x_coord" with
      | None => Raises IndexError
      | Some xs =>
          match int xs with
          | None => Raises ValueError
          | Some x_coord =>
              match group m "y_coord" with
              | None => Raises IndexError
              | Some ys =>
                  match int ys with
                  | None => Raises ValueError
                  | Some y_coord =>
                      match group m "actions" with
                      | None => Raises IndexError
                      | Some actions =>
                          match actions with
                          | _ :: _ => Returns (MovementTurn x_coord y_coord actions)
                          | [] => Returns (ShootingTurn x_coord y_coord)
                          end
                      end
                  end
              end
          end
      end
  end.

(** The board of the tests' [setUp]. *)
Definition basic_board : Board := {[ (5, 5) := (N, true) ]}.

(** The board of [test_illegal_moves], of size 8. *)
Definition illegal_board : Board := {[ (2, 2) := (N, true); (4, 5) := (E, false) ]}.

(** The ships of a list that stand at a location, in list order. *)
Definition ships_at (location : Location) (ships : list Ship) : list Ship :=
  List.filter (fun ship => (ship_x ship =? location.1) && (ship_y ship =? location.2)) ships.

(* ===================================================================== *)
(** ** The specification's direction model and fold *)
(* ===================================================================== *)

(** Left turns N to W, W to S, S to E, E to N. *)
Definition spec_left (h : Heading) : Heading :=
  match h with N => W | W => S | S => E | E => N end.

(** Right is the inverse of left. *)
Definition spec_right (h : Heading) : Heading :=
  match h with W => N | S => W | E => S | N => E end.

(** The heading after a rotation by 180 degrees. *)
Definition opposite (h : Heading) : Heading :=
  match h with N => S | S => N | E => W | W => E end.

(** North is (0,+1), south (0,-1), east (+1,0), west (-1,0). *)
Definition spec_delta (h : Heading) : Z * Z :=
  match h with N => (0, 1) | S => (0, -1) | E => (1, 0) | W => (-1, 0) end.

(** One action on (current coordinate, current heading): L and R change the
    heading only, M advances the coordinate by the delta of the heading at
    that point. *)
Definition spec_step (st : Location * Heading) (action : ascii) : Location * Heading :=
  if Ascii.eqb action "L" then (st.1, spec_left st.2)
  else if Ascii.eqb action "R" then (st.1, spec_right st.2)
  else if Ascii.eqb action "M" then
    ((st.1.1 + (spec_delta st.2).1, st.1.2 + (spec_delta st.2).2), st.2)
  else st.

(** The left-to-right fold of an action sequence. *)
Definition spec_fold (actions : list ascii) (st : Location * Heading)
  : Location * Heading :=
  fold_left spec_step actions st.

(** A sequence of rotations applied through the table, left to right. *)
Definition rotations (ops : list ascii) (h : Heading) : option Heading :=
  fold_left (fun (oh : option Heading) op =>
               match oh with Some h' => rotate h' op | None => None end)
            ops (Some h).

(** Every key of the board lies on the board. *)
Definition in_bounds (board_size : Z) (location : Location) : Prop :=
  0 <= location.1 < board_size /\ 0 <= location.2 < board_size.

(** The board invariant: keys in bounds, and no key listed twice among the
    items of the dict. *)
Definition board_ok (board_size : Z) (board : Board) : Prop :=
  (forall location ship, board !! location = Some ship -> in_bounds board_size location)
  /\ NoDup (fst <$> map_to_list board).

(** The outcome of a movement turn, without the board. *)
Definition move_outcome (board_size : Z) (board : Board) (turn_number : Z)
    (x y : Z) (actions : list ascii) : Outcome Action :=
  (process_turn board_size board turn_number (MovementTurn x y actions)).1.

(** [process_move] by cases, for well-formed actions. *)
Inductive move_case (board_size : Z) (board : Board) (turn_number x y : Z)
    (actions : list ascii) : Outcome Action * Board -> Prop :=
  | case_no_ship :
      board !! (x, y) = None ->
      move_case board_size board turn_number x y actions
        (Raises (NoShipAtLocation turn_number x y), board)
  | case_sunk h :
      board !! (x, y) = Some (h, false) ->
      move_case board_size board turn_number x y actions
        (Raises (MovingSunkShip turn_number x y), board)
  | case_outside h fx fy fh :
      board !! (x, y) = Some (h, true) ->
      spec_fold actions ((x, y), h) = ((fx, fy), fh) ->
      ~ in_bounds board_size (fx, fy) ->
      move_case board_size board turn_number x y actions
        (Raises (MoveOutsideBoard turn_number fx fy), delete (x, y) board)
  | case_target h fx fy fh :
      board !! (x, y) = Some (h, true) ->
      spec_fold actions ((x, y), h) = ((fx, fy), fh) ->
      in_bounds board_size (fx, fy) ->
      (fx, fy) <> (x, y) ->
      is_Some (board !! (fx, fy)) ->
      move_case board_size board turn_number x y actions
        (Raises (ShipAtMoveTarget turn_number fx fy), delete (x, y) board)
  | case_moved h fx fy fh :
      board !! (x, y) = Some (h, true) ->
      spec_fold actions ((x, y), h) = ((fx, fy), fh) ->
      in_bounds board_size (fx, fy) ->
      (fx, fy) = (x, y) \/ board !! (fx, fy) = None ->
      move_case board_size board turn_number x y actions
        (Returns (MovedShip x y h fx fy fh),
         <[(fx, fy) := (fh, true)]> (delete (x, y) board)).

(* ===================================================================== *)
(** ** The turn source and the run over it (main.py 84-91, 173-186) *)
(* ===================================================================== *)

(** [FileReader.turns]: a generator that strips each line and parses it when
    the consumer asks for the next turn.  An element is the outcome of that
    request: the turn, or the exception the parser raises. *)
Definition turns (lines : list (list ascii)) : list (Outcome Turn) :=
  map (fun line => make_turn_from_line (strip line)) lines.

(** The loop of [run] over a source whose requests can raise, as in
    [run(board_size, initial_ships, reader.turns())]: an exception of the
    source ends the run like one of the turn. *)
Fixpoint run_source_loop (board_size : Z) (board : Board) (turn_number : Z)
    (source : list (Outcome Turn)) (actionList : option (list Action))
  : Outcome Board * option (list Action) :=
  match source with
  | [] => (Returns board, actionList)
  | Raises e :: _ => (Raises e, actionList)
  | Returns turn :: rest =>
      match process_turn board_size board turn_number turn with
      | (Returns action, board') =>
          run_source_loop board_size board' (turn_number + 1) rest
                          ((fun l => l ++ [action]) <$> actionList)
      | (Raises e, _) => (Raises e, actionList)
      end
  end.

(** The letters that only rotate. *)
Definition is_LR (c : ascii) : bool := Ascii.eqb c "L" || Ascii.eqb c "R".

(** The number of M actions of a sequence. *)
Definition count_M (actions : list ascii) : nat :=
  length (List.filter (fun c => Ascii.eqb c "M") actions).

(** One of the four exceptions of the game rules, raised at a turn. *)
Definition rule_violation (turn_number : Z) (e : Exn) : Prop :=
  exists x y,
    e = NoShipAtLocation turn_number x y \/ e = MovingSunkShip turn_number x y
    \/ e = MoveOutsideBoard turn_number x y \/ e = ShipAtMoveTarget turn_number x y.

(** A turn as the parser builds them: coordinates read from digit runs, and
    a movement only with a non-empty run of action letters. *)
Definition parsed_shape (turn : Turn) : Prop :=
  match turn with
  | MovementTurn x y actions =>
      0 <= x /\ 0 <= y /\ actions <> [] /\ forallb is_LRM actions = true
  | ShootingTurn x y => 0 <= x /\ 0 <= y
  | OtherTurn => False
  end.

(* ===================================================================== *)
(** ** The fleet line (main.py 52, 62-65) *)
(* ===================================================================== *)

(** The fleet pattern has one more kind of atom than the turn pattern: a
    single character of a class. *)
Inductive item : Type :=
  | Atom (a : atom)
  | OneOf (p : ascii -> bool).

Definition pattern : Type := list (option string * item).

(** [pattern.match] for patterns with single-character classes; on the atoms
    of the turn pattern it proceeds as [match_here]. *)
Fixpoint pmatch_here (r : pattern) (s : list ascii) : option match_obj :=
  match r with
  | [] => Some ([], s)
  | (g, it) :: r' =>
      match it with
      | OneOf p =>
          match s with
          | x :: s' => if p x then bind_group g [x] <$> pmatch_here r' s' else None
          | [] => None
          end
      | Atom (Chr c) =>
          match s with
          | x :: s' => if Ascii.eqb x c then bind_group g [x] <$> pmatch_here r' s' else None
          | [] => None
          end
      | Atom (Star p) =>
          (fun wm : list ascii * match_obj => bind_group g wm.1 wm.2)
            <$> greedy p (pmatch_here r') s
      | Atom (Plus p) =>
          match s with
          | x :: s' =>
              if p x then
                (fun wm : list ascii * match_obj => bind_group g (x :: wm.1) wm.2)
                  <$> greedy p (pmatch_here r') s'
              else None
          | [] => None
          end
      end
  end.

(** [pattern.search] *)
Fixpoint psearch (r : pattern) (s : list ascii) : option match_obj :=
  match pmatch_here r s with
  | Some m => Some m
  | None =>
      match s with
      | [] => None
      | _ :: s' => psearch r s'
      end
  end.

(** [pattern.finditer], for a pattern that matches no empty text: the
    leftmost match, then the matches of the text after it.  Each match takes
    at least one character, so [fuel] above the length of the text is never
    used up. *)
Fixpoint finditer_fuel (fuel : nat) (r : pattern) (s : list ascii) : list groups :=
  match fuel with
  | O => []
  | Datatypes.S fuel' =>
      match psearch r s with
      | None => []
      | Some (gs, rest) => gs :: finditer_fuel fuel' r rest
      end
  end.

Definition finditer (r : pattern) (s : list ascii) : list groups :=
  finditer_fuel (Datatypes.S (length s)) r s.

(** The language of an item, and the pieces of a match. *)
Definition item_lang (it : item) (w : list ascii) : Prop :=
  match it with
  | Atom a => atom_lang a w
  | OneOf p => exists c, w = [c] /\ p c = true
  end.

Definition items_match (r : pattern) (ws : list (list ascii)) : Prop :=
  Forall2 (fun (gi : option string * item) w => item_lang gi.2 w) r ws.

Fixpoint pgroups_of (r : pattern) (ws : list (list ascii)) : groups :=
  match r, ws with
  | (g, _) :: r', w :: ws' => add_group g w (pgroups_of r' ws')
  | _, _ => []
  end.

(** [[NESW]] *)
Definition is_NESW (c : ascii) : bool :=
  Ascii.eqb c "N" || Ascii.eqb c "E" || Ascii.eqb c "S" || Ascii.eqb c "W".

(** [GRID_REGEX] (line 52), one atom of the pattern per line. *)
Definition GRID_REGEX : pattern :=
  [ (None, Atom (Chr "("));                          (* \( *)
    (None, Atom (Star is_space));                    (* \s* *)
    (Some "x_coord"%string, Atom (Plus is_digit));   (* (?P<x_coord> \d+ ) *)
    (None, Atom (Star is_space));                    (* \s* *)
    (None, Atom (Chr ","));                          (* , *)
    (None, Atom (Star is_space));                    (* \s* *)
    (Some "y_coord"%string, Atom (Plus is_digit));   (* (?P<y_coord> \d+ ) *)
    (None, Atom (Star is_space));                    (* \s* *)
    (None, Atom (Chr ","));                          (* , *)
    (None, Atom (Star is_space));                    (* \s* *)
    (Some "direction"%string, OneOf is_NESW);        (* (?P<direction> [NESW] ) *)
    (None, Atom (Star is_space));                    (* \s* *)
    (None, Atom (Chr ")")) ].                        (* \) *)

(** The direction string of a heading, and back. *)
Definition heading_char (h : Heading) : ascii :=
  match h with N => "N" | S => "S" | E => "E" | W => "W" end.

Definition heading_of (d : list ascii) : option Heading :=
  match d with
  | [c] =>
      if Ascii.eqb c "N" then Some N
      else if Ascii.eqb c "E" then Some E
      else if Ascii.eqb c "S" then Some S
      else if Ascii.eqb c "W" then Some W
      else None
  | _ => None
  end.

(** [Ship(int(match.group('x_coord')), int(match.group('y_coord')),
    match.group('direction'), True)] (line 63).  [None] stands for the
    [ValueError] that [int] raises on a coordinate of more than
    [int_max_str_digits] digits, and for a step that has no value in the
    model: a missing group, a coordinate that is not a digit run, a
    direction other than the four. *)
Definition ship_of_match (m : groups) : option Ship :=
  match group m "x_coord", group m "y_coord", group m "direction" with
  | Some xs, Some ys, Some d =>
      match int xs, int ys, heading_of d with
      | Some x, Some y, Some h => Some (mkShip x y h true)
      | _, _, _ => None
      end
  | _, _, _ => None
  end.

(** The list comprehension of [FileReader.__enter__] (62-65) over the second
    line of the file. *)
Fixpoint ships_of_matches (ms : list groups) : option (list Ship) :=
  match ms with
  | [] => Some []
  | m :: ms' =>
      match ship_of_match m, ships_of_matches ms' with
      | Some ship, Some ships => Some (ship :: ships)
      | _, _ => None
      end
  end.

Definition initial_ships_of_line (line : list ascii) : option (list Ship) :=
  ships_of_matches (finditer GRID_REGEX (strip line)).

(** What a match of the fleet pattern captures: the two digit runs and the
    heading whose letter the direction group holds. *)
Definition fleet_entry : Type := (list ascii * list ascii * Heading)%type.

Definition entry_groups (e : fleet_entry) : groups :=
  [("x_coord"%string, e.1.1); ("y_coord"%string, e.1.2);
   ("direction"%string, [heading_char e.2])].

(** Both digit runs are short enough for [int]. *)
Definition entry_readable (e : fleet_entry) : bool :=
  (length e.1.1 <=? int_max_str_digits)%nat
  && (length e.1.2 <=? int_max_str_digits)%nat.

Definition entry_ship (e : fleet_entry) : Ship :=
  mkShip (digits_value e.1.1) (digits_value e.1.2) e.2 true.

(** The digit runs of an entry are runs of digits. *)
Definition entry_digits (e : fleet_entry) : Prop :=
  e.1.1 <> [] /\ forallb is_digit e.1.1 = true
  /\ e.1.2 <> [] /\ forallb is_digit e.1.2 = true.

(** The groups [gs] are those of a substring of [s] that is in the language
    of the fleet pattern. *)
Definition group_of_text (s : list ascii) (gs : groups) : Prop :=
  exists pre ws post,
    s = pre ++ concat ws ++ post
    /\ items_match GRID_REGEX ws /\ gs = pgroups_of GRID_REGEX ws.

(** A fleet line as the input format describes it: groups [( X , Y , D )]
    with optional blanks inside and coordinates of at most
    [int_max_str_digits] digits, with text free of opening parentheses
    before, between and after them; and the ships it lists, in order. *)
Inductive fleet_text : list ascii -> list Ship -> Prop :=
  | fleet_text_end sep :
      forallb (fun c => negb (Ascii.eqb c "(")) sep = true ->
      fleet_text sep []
  | fleet_text_group sep ws1 xs ws2 ws3 ys ws4 ws5 h ws6 text ships :
      forallb (fun c => negb (Ascii.eqb c "(")) sep = true ->
      forallb is_space ws1 = true -> forallb is_space ws2 = true ->
      forallb is_space ws3 = true -> forallb is_space ws4 = true ->
      forallb is_space ws5 = true -> forallb is_space ws6 = true ->
      xs <> [] -> forallb is_digit xs = true ->
      ys <> [] -> forallb is_digit ys = true ->
      (length xs <= int_max_str_digits)%nat ->
      (length ys <= int_max_str_digits)%nat ->
      fleet_text text ships ->
      fleet_text
        (sep ++ "("%char :: ws1 ++ xs ++ ws2 ++ ","%char :: ws3 ++ ys ++ ws4
             ++ ","%char :: ws5 ++ heading_char h :: ws6 ++ ")"%char :: text)
        (mkShip (digits_value xs) (digits_value ys) h true :: ships).

(* ===================================================================== *)
(** ** Printing the final board (main.py 188-200) *)
(* ===================================================================== *)

(** [str(n)], which [%s] applies to an int: the decimal digits, after a
    minus sign when [n] is negative.  The limit on decimal strings bears on
    this conversion as on [int]; a coordinate on a board of the run lies
    below a board size that [int] has read, hence within the limit. *)
Definition str_of_int (n : Z) : list ascii :=
  list_ascii_of_string (DecimalString.NilZero.string_of_int (Z.to_int n)).

(** The order of [sorted] on the tuples [(x, y, direction, alive)]: that of
    the first components that differ, ints by value, direction strings by
    their character, [False] before [True]. *)
Definition tuple_leb (a b : Z * Z * Heading * bool) : bool :=
  let '(x1, y1, d1, a1) := a in
  let '(x2, y2, d2, a2) := b in
  if x1 <? x2 then true else if x2 <? x1 then false
  else if y1 <? y2 then true else if y2 <? y1 then false
  else if (code (heading_char d1) <? code (heading_char d2))%N then true
  else if (code (heading_char d2) <? code (heading_char d1))%N then false
  else implb a1 a2.

Definition tuple_le (a b : Z * Z * Heading * bool) : Prop := tuple_leb a b = true.

#[global] Instance tuple_le_dec : RelDecision tuple_le.
Proof. intros a b. unfold tuple_le. apply _. Defined.

(** [sorted(...)]: the list in ascending order.  The order is total and
    distinguishes any two different tuples, so the result does not depend
    on the sorting algorithm. *)
Definition sorted (l : list (Z * Z * Heading * bool)) : list (Z * Z * Heading * bool) :=
  merge_sort tuple_le l.

(** The generator [(x, y, direction, alive) for (x, y), (direction, alive) in
    final_board.items()]. *)
Definition board_items (final_board : Board) : list (Z * Z * Heading * bool) :=
  (fun item : Z * Z * (Heading * bool) =>
     (item.1.1, item.1.2, item.2.1, item.2.2)) <$> map_to_list final_board.

(** [state] (190-193). *)
Definition main_state (final_board : Board) : list (Z * Z * Heading * bool) :=
  sorted (board_items final_board).

(** The line ['(%s, %s, %s)%s' % (x, y, direction, '' if alive else ' SUNK')]. *)
Definition format_ship (ship_state : Z * Z * Heading * bool) : list ascii :=
  let '(x, y, d, a) := ship_state in
  py "(" ++ str_of_int x ++ py ", " ++ str_of_int y ++ py ", " ++ [heading_char d]
     ++ py ")" ++ (if a then [] else py " SUNK").

(** The lines [main] prints for a final board, in order. *)
Definition main_output (final_board : Board) : list (list ascii) :=
  map format_ship (main_state final_board).

(** Ascending order of coordinates: by x, then by y. *)
Definition coord_lt (a b : Z * Z * Heading * bool) : Prop :=
  a.1.1.1 < b.1.1.1 \/ (a.1.1.1 = b.1.1.1 /\ a.1.1.2 < b.1.1.2).

(** The three outcomes of the parser, by what the search finds. *)
Inductive parse_case (line : list ascii) : Prop :=
  | parse_no_match :
      search TURN_REGEX (strip line) = None ->
      make_turn_from_line line = Raises AttributeError ->
      parse_case line
  | parse_too_long xs ys actions rest :
      search TURN_REGEX (strip line)
        = Some ([("x_coord"%string, xs); ("y_coord"%string, ys);
                 ("actions"%string, actions)], rest) ->
      (int_max_str_digits < length xs \/ int_max_str_digits < length ys)%nat ->
      make_turn_from_line line = Raises ValueError ->
      parse_case line
  | parse_turn xs ys actions rest :
      search TURN_REGEX (strip line)
        = Some ([("x_coord"%string, xs); ("y_coord"%string, ys);
                 ("actions"%string, actions)], rest) ->
      forallb is_digit xs = true -> forallb is_digit ys = true ->
      forallb is_LRM actions = true ->
      (length xs <= int_max_str_digits)%nat ->
      (length ys <= int_max_str_digits)%nat ->
      make_turn_from_line line
        = Returns (match actions with
                   | [] => ShootingTurn (digits_value xs) (digits_value ys)
                   | _ :: _ => MovementTurn (digits_value xs) (digits_value ys) actions
                   end) ->
      parse_case line.



(* ===================================================================== *)
(** * Properties *)
(* ===================================================================== *)

(** ** The scenarios of test.py *)

Example test_left_rotate :
  process_turn 10 basic_board 0 (MovementTurn 5 5 (py "L"))
  = (Returns (MovedShip 5 5 N 5 5 W), {[ (5, 5) := (W, true) ]}).
Proof. vm_compute. reflexivity. Qed.

Example test_ahead_move :
  process_turn 10 basic_board 0 (MovementTurn 5 5 (py "M"))
  = (Returns (MovedShip 5 5 N 5 6 N), {[ (5, 6) := (N, true) ]}).
Proof. vm_compute. reflexivity. Qed.

Example test_illegal_moves :
  (process_turn 8 illegal_board 0 (MovementTurn 2 2 (py "LMMMMM"))).1
    = Raises (MoveOutsideBoard 0 (-3) 2)
  /\ (process_turn 8 illegal_board 0 (MovementTurn 4 5 (py "LMMMMM"))).1
    = Raises (MovingSunkShip 0 4 5)
  /\ (process_turn 8 illegal_board 0 (MovementTurn 1 2 (py "LMMMMM"))).1
    = Raises (NoShipAtLocation 0 1 2)
  /\ (process_turn 8 illegal_board 0 (MovementTurn 2 2 (py "MMMRMM"))).1
    = Raises (ShipAtMoveTarget 0 4 5).
Proof. repeat split; vm_compute; reflexivity. Qed.

Example test_line_parsing :
  make_turn_from_line (py "(123,4)") = Returns (ShootingTurn 123 4)
  /\ make_turn_from_line (py " ( 123, 4)  ") = Returns (ShootingTurn 123 4)
  /\ make_turn_from_line (py " ( 123, 4)LLLRRRMRMMRMRMLRLRLMR")
     = Returns (MovementTurn 123 4 (py "LLLRRRMRMMRMRMLRLRLMR"))
  /\ make_turn_from_line (py " ( 123, 456  )     LLLRRRMRMMRMRMLRLRLMR")
     = Returns (MovementTurn 123 456 (py "LLLRRRMRMMRMRMLRLRLMR")).
Proof. repeat split; vm_compute; reflexivity. Qed.

Example run_collects_actions :
  run 10 [mkShip 5 5 N true] [MovementTurn 5 5 (py "M"); ShootingTurn 5 6;
                               ShootingTurn 0 0; MovementTurn 5 6 (py "L")] (Some [])
  = (Raises (MovingSunkShip 3 5 6),
     Some [MovedShip 5 5 N 5 6 N; SunkAliveShip 5 6; ShotNoTarget 0 0]).
Proof. vm_compute. reflexivity. Qed.

(** ** Direction model *)

Lemma Heading_eqb_eq a b : Heading_eqb a b = true <-> a = b.
Proof. destruct a, b; simpl; split; congruence. Qed.

Lemma rotate_L h : rotate h "L" = Some (spec_left h).
Proof. destruct h; reflexivity. Qed.

Lemma rotate_R h : rotate h "R" = Some (spec_right h).
Proof. destruct h; reflexivity. Qed.

Lemma delta_spec h : delta h = Some (spec_delta h).
Proof. destruct h; reflexivity. Qed.

(** C8.  The rotation table is total over the four headings and the two
    rotation letters, Left maps N to W, W to S, S to E and E to N, Left and
    Right undo each other, and four Lefts or four Rights return every
    heading to itself. *)
Theorem rotation_algebra :
  forall h : Heading,
    is_Some (rotate h "L") /\ is_Some (rotate h "R")
    /\ rotate N "L" = Some W /\ rotate W "L" = Some S
    /\ rotate S "L" = Some E /\ rotate E "L" = Some N
    /\ rotations (py "LR") h = Some h
    /\ rotations (py "RL") h = Some h
    /\ rotations (py "LLLL") h = Some h
    /\ rotations (py "RRRR") h = Some h.
Proof.
  intros h. rewrite rotate_L, rotate_R.
  repeat split; eauto; destruct h; reflexivity.
Qed.

(** ** Movement *)

Lemma is_LRM_cases a :
  is_LRM a = true -> a = "L"%char \/ a = "R"%char \/ a = "M"%char.
Proof.
  unfold is_LRM. intros H.
  apply orb_true_iff in H as [H | H]; [apply orb_true_iff in H as [H | H] |];
    apply Ascii.eqb_eq in H; auto.
Qed.

(** On well-formed actions the loop of [process_move] never raises and
    computes the fold of the specification. *)
Lemma move_loop_fold actions : forall location h,
  forallb is_LRM actions = true ->
  move_loop actions location h = Returns (spec_fold actions (location, h)).
Proof.
  induction actions as [| a rest IH]; intros location h Hok; [reflexivity |].
  simpl in Hok. apply andb_true_iff in Hok as [Ha Hrest].
  unfold spec_fold. simpl fold_left.
  destruct (is_LRM_cases a Ha) as [-> | [-> | ->]]; simpl move_loop.
  - rewrite rotate_L. rewrite IH by assumption. reflexivity.
  - rewrite rotate_R. rewrite IH by assumption. reflexivity.
  - rewrite delta_spec. rewrite IH by assumption. reflexivity.
Qed.

Lemma out_of_bounds_false board_size (location : Location) :
  (location.1 <? 0) || (location.2 <? 0)
  || (location.1 >=? board_size) || (location.2 >=? board_size) = false
  <-> in_bounds board_size location.
Proof.
  unfold in_bounds. rewrite !orb_false_iff, !Z.ltb_ge, !Z.geb_leb, !Z.leb_gt. lia.
Qed.

Lemma out_of_bounds_true board_size (location : Location) :
  (location.1 <? 0) || (location.2 <? 0)
  || (location.1 >=? board_size) || (location.2 >=? board_size) = true
  <-> ~ in_bounds board_size location.
Proof.
  rewrite <- out_of_bounds_false. destruct (_ || _); split; congruence.
Qed.

Lemma process_move_cases board_size board turn_number x y actions :
  forallb is_LRM actions = true ->
  move_case board_size board turn_number x y actions
    (process_move board_size board turn_number x y actions).
Proof.
  intros Hok. unfold process_move.
  destruct (board !! (x, y)) as [[h [|]] |] eqn:Hship; simpl.
  - rewrite (move_loop_fold actions (x, y) h Hok).
    destruct (spec_fold actions (x, y, h)) as [[fx fy] fh] eqn:Hfold.
    cbn [fst snd].
    destruct ((fx <? 0) || (fy <? 0) || (fx >=? board_size) || (fy >=? board_size))
      eqn:Hb.
    + eapply case_outside; eauto.
      apply (out_of_bounds_true board_size (fx, fy)). exact Hb.
    + apply (out_of_bounds_false board_size (fx, fy)) in Hb.
      destruct (decide ((fx, fy) = (x, y))) as [Heq | Hne].
      * assert (Hd : delete (x, y) board !! (fx, fy) = None)
          by (rewrite Heq; apply lookup_delete_eq).
        rewrite Hd. eapply case_moved; eauto.
      * rewrite lookup_delete_ne by congruence.
        destruct (board !! (fx, fy)) as [other |] eqn:Hother.
        -- eapply case_target; eauto.
        -- eapply case_moved; eauto.
  - eapply case_sunk; eauto.
  - apply case_no_ship; assumption.
Qed.

Lemma process_move_moved (board_size : Z) (board : Board) (turn_number x y : Z)
    (actions : list ascii) (h : Heading) (fx fy : Z) (fh : Heading) :
  forallb is_LRM actions = true ->
  board !! (x, y) = Some (h, true) ->
  spec_fold actions ((x, y), h) = ((fx, fy), fh) ->
  in_bounds board_size (fx, fy) ->
  (fx, fy) = (x, y) \/ board !! (fx, fy) = None ->
  process_move board_size board turn_number x y actions
  = (Returns (MovedShip x y h fx fy fh),
     <[(fx, fy) := (fh, true)]> (delete (x, y) board)).
Proof.
  intros Hok Hship Hfold Hin Hfree.
  unfold process_move. rewrite Hship. simpl.
  rewrite (move_loop_fold actions (x, y) h Hok), Hfold. cbn [fst snd].
  pose proof (proj2 (out_of_bounds_false board_size (fx, fy)) Hin) as Hb.
  cbn [fst snd] in Hb. rewrite Hb.
  assert (Hd : delete (x, y) board !! (fx, fy) = None).
  { destruct Hfree as [-> | Hnone]; [apply lookup_delete_eq |].
    rewrite lookup_delete, Hnone. case_decide; reflexivity. }
  rewrite Hd. reflexivity.
Qed.

(** C1.  A movement turn on an alive ship whose folded final coordinate is in
    bounds and holds no other ship returns [MovedShip] with the start and the
    folded end, and leaves the board with the start entry removed and the ship
    stored alive with the final heading at the final coordinate, every other
    entry unchanged; only the final coordinate is tested.  From (5,5) heading
    N the actions LLMMMRMMLRM end at (2,2) heading W. *)
Theorem move_success_postcondition :
  (forall board_size (board : Board) turn_number x y actions h fx fy fh,
      forallb is_LRM actions = true ->
      board !! (x, y) = Some (h, true) ->
      spec_fold actions ((x, y), h) = ((fx, fy), fh) ->
      in_bounds board_size (fx, fy) ->
      (fx, fy) = (x, y) \/ board !! (fx, fy) = None ->
      exists board' : Board,
        process_turn board_size board turn_number (MovementTurn x y actions)
        = (Returns (MovedShip x y h fx fy fh), board')
        /\ board' = <[(fx, fy) := (fh, true)]> (delete (x, y) board)
        /\ board' !! (fx, fy) = Some (fh, true)
        /\ ((fx, fy) <> (x, y) -> board' !! (x, y) = None)
        /\ (forall k, k <> (x, y) -> k <> (fx, fy) -> board' !! k = board !! k))
  /\ spec_fold (py "LLMMMRMMLRM") ((5, 5), N) = ((2, 2), W)
  /\ process_turn 10 basic_board 0 (MovementTurn 5 5 (py "LLMMMRMMLRM"))
     = (Returns (MovedShip 5 5 N 2 2 W), {[ (2, 2) := (W, true) ]}).
Proof.
  split; [| split; vm_compute; reflexivity].
  intros board_size board turn_number x y actions h fx fy fh Hok Hship Hfold Hin Hfree.
  eexists. split; [| split; [reflexivity |]].
  - apply process_move_moved; assumption.
  - split; [apply lookup_insert_eq |]. split.
    + intros Hne. rewrite lookup_insert_ne by exact Hne. apply lookup_delete_eq.
    + intros k Hk1 Hk2.
      rewrite lookup_insert_ne by congruence. apply lookup_delete_ne. congruence.
Qed.

Lemma move_success_postcondition_witness :
  process_turn 8 illegal_board 0
    (MovementTurn 2 2 (py "MMMRM"))
  = (Returns (MovedShip 2 2 N 3 5 E),
     <[(3, 5) := (E, true)]> (delete (2, 2) illegal_board)).
Proof.
  destruct (proj1 move_success_postcondition 8 illegal_board 0 2 2 (py "MMMRM")
              N 3 5 E) as (board' & Hrun & -> & _).
  - reflexivity.
  - vm_compute. reflexivity.
  - vm_compute. reflexivity.
  - unfold in_bounds. simpl. lia.
  - right. vm_compute. reflexivity.
  - exact Hrun.
Defined.

(** Case analysis on the hypotheses of a characterisation: open the
    existentials and conjunctions, and identify what two hypotheses say of
    the same lookup or fold. *)
Ltac decompose_cases :=
  repeat match goal with
    | H : exists _, _ |- _ => destruct H
    | H : _ /\ _ |- _ => destruct H
    | H1 : ?a = _, H2 : ?a = _ |- _ => rewrite H1 in H2
    | _ => progress simplify_eq
    end.

(** C3.  A movement turn with well-formed actions fails exactly in four
    cases, tested in this order: no ship at (x,y) raises
    [NoShipAtLocation(t,x,y)]; a sunk ship there raises
    [MovingSunkShip(t,x,y)]; a folded final coordinate off the board raises
    [MoveOutsideBoard(t,finalX,finalY)]; a final coordinate held by another
    ship raises [ShipAtMoveTarget(t,finalX,finalY)]; otherwise the turn
    returns. *)
Theorem move_failure_characterization
    (board_size : Z) (board : Board) (turn_number x y : Z) (actions : list ascii) :
  forallb is_LRM actions = true ->
  (move_outcome board_size board turn_number x y actions
     = Raises (NoShipAtLocation turn_number x y)
   <-> board !! (x, y) = None)
  /\ (move_outcome board_size board turn_number x y actions
        = Raises (MovingSunkShip turn_number x y)
      <-> exists h, board !! (x, y) = Some (h, false))
  /\ (forall fx fy,
        move_outcome board_size board turn_number x y actions
          = Raises (MoveOutsideBoard turn_number fx fy)
        <-> exists h fh,
              board !! (x, y) = Some (h, true)
              /\ spec_fold actions ((x, y), h) = ((fx, fy), fh)
              /\ ~ in_bounds board_size (fx, fy))
  /\ (forall fx fy,
        move_outcome board_size board turn_number x y actions
          = Raises (ShipAtMoveTarget turn_number fx fy)
        <-> exists h fh,
              board !! (x, y) = Some (h, true)
              /\ spec_fold actions ((x, y), h) = ((fx, fy), fh)
              /\ in_bounds board_size (fx, fy)
              /\ (fx, fy) <> (x, y)
              /\ is_Some (board !! (fx, fy)))
  /\ ((exists action,
          move_outcome board_size board turn_number x y actions = Returns action)
      <-> exists h fx fy fh,
            board !! (x, y) = Some (h, true)
            /\ spec_fold actions ((x, y), h) = ((fx, fy), fh)
            /\ in_bounds board_size (fx, fy)
            /\ ((fx, fy) = (x, y) \/ board !! (fx, fy) = None))
  /\ (forall e,
        move_outcome board_size board turn_number x y actions = Raises e ->
        e = NoShipAtLocation turn_number x y
        \/ e = MovingSunkShip turn_number x y
        \/ exists fx fy,
             e = MoveOutsideBoard turn_number fx fy
             \/ e = ShipAtMoveTarget turn_number fx fy).
Proof.
  intros Hok. unfold move_outcome, process_turn.
  pose proof (process_move_cases board_size board turn_number x y actions Hok) as Hc.
  destruct Hc as [Hship | h Hship | h fx fy fh Hship Hfold Hout
                  | h fx fy fh Hship Hfold Hin Hne Hocc
                  | h fx fy fh Hship Hfold Hin Hfree]; cbn [fst].
  all: repeat split; intros; decompose_cases; try congruence; eauto 10.
  all: exfalso;
    match goal with
    | Hocc : is_Some _, Hfree : _ \/ _ |- _ =>
        destruct Hocc as [other Hocc]; destruct Hfree; congruence
    end.
Qed.

Lemma move_failure_characterization_witness :
  move_outcome 8 illegal_board 0 2 2 (py "LMMMMM") = Raises (MoveOutsideBoard 0 (-3) 2)
  /\ move_outcome 8 illegal_board 0 4 5 (py "LMMMMM") = Raises (MovingSunkShip 0 4 5)
  /\ move_outcome 8 illegal_board 0 1 2 (py "LMMMMM") = Raises (NoShipAtLocation 0 1 2)
  /\ move_outcome 8 illegal_board 0 2 2 (py "MMMRMM") = Raises (ShipAtMoveTarget 0 4 5).
Proof.
  split; [| split; [| split]].
  - destruct (move_failure_characterization 8 illegal_board 0 2 2 (py "LMMMMM") eq_refl)
      as (_ & _ & Hout & _).
    apply Hout. exists N, W. split; [vm_compute; reflexivity |].
    split; [vm_compute; reflexivity |]. unfold in_bounds. simpl. lia.
  - destruct (move_failure_characterization 8 illegal_board 0 4 5 (py "LMMMMM") eq_refl)
      as (_ & Hsunk & _).
    apply Hsunk. exists E. vm_compute. reflexivity.
  - destruct (move_failure_characterization 8 illegal_board 0 1 2 (py "LMMMMM") eq_refl)
      as (Hnone & _).
    apply Hnone. vm_compute. reflexivity.
  - destruct (move_failure_characterization 8 illegal_board 0 2 2 (py "MMMRMM") eq_refl)
      as (_ & _ & _ & Htarget & _).
    apply Htarget. exists N, E. split; [vm_compute; reflexivity |].
    split; [vm_compute; reflexivity |].
    split; [unfold in_bounds; simpl; lia |].
    split; [congruence |]. exists (E, false). vm_compute. reflexivity.
Defined.

(** C5.  When a movement turn raises [MoveOutsideBoard] or
    [ShipAtMoveTarget], the ship has been taken off the board and is stored
    nowhere: the board left behind is the board before the turn without the
    entry at the start coordinate, every other entry unchanged. *)
Theorem failed_move_removes_ship
    (board_size : Z) (board board' : Board) (turn_number x y : Z)
    (actions : list ascii) (e : Exn) :
  process_turn board_size board turn_number (MovementTurn x y actions)
    = (Raises e, board') ->
  (exists fx fy, e = MoveOutsideBoard turn_number fx fy
                 \/ e = ShipAtMoveTarget turn_number fx fy) ->
  board' = delete (x, y) board
  /\ is_Some (board !! (x, y))
  /\ board' !! (x, y) = None
  /\ (forall k, k <> (x, y) -> board' !! k = board !! k).
Proof.
  unfold process_turn, process_move. intros Hrun (fx & fy & He).
  destruct (board !! (x, y)) as [[h [|]] |] eqn:Hship; simpl in Hrun.
  - assert (Hb : board' = delete (x, y) board).
    { destruct (move_loop actions (x, y) h) as [[location dir] | e0];
        [| congruence].
      destruct (_ || _); [congruence |].
      destruct (delete (x, y) board !! location); congruence. }
    subst board'. split; [reflexivity |]. split; [eauto |].
    split; [apply lookup_delete_eq |].
    intros k Hk. apply lookup_delete_ne. congruence.
  - destruct He; congruence.
  - destruct He; congruence.
Qed.

Lemma failed_move_removes_ship_witness :
  delete (2, 2) illegal_board = delete (2, 2) illegal_board
  /\ is_Some (illegal_board !! (2, 2))
  /\ delete (2, 2) illegal_board !! (2, 2) = None
  /\ (forall k, k <> (2, 2) -> delete (2, 2) illegal_board !! k = illegal_board !! k).
Proof.
  apply (failed_move_removes_ship 8 illegal_board (delete (2, 2) illegal_board)
           0 2 2 (py "MMMRMM") (ShipAtMoveTarget 0 4 5)).
  - vm_compute. reflexivity.
  - exists 4, 5. right. reflexivity.
Defined.

Lemma fold_there_and_back x y h :
  spec_fold (py "MLLM") ((x, y), h) = ((x, y), opposite h)
  /\ spec_fold (py "MRRM") ((x, y), h) = ((x, y), opposite h).
Proof.
  destruct h; unfold spec_fold; cbn; split; repeat f_equal; lia.
Qed.

(** C9.  For an alive ship at an in-bounds coordinate, the single action
    sequence MLLM, and likewise MRRM, succeeds whatever else is on the board
    and brings the ship back to its coordinate with its heading rotated by
    180 degrees, which is what two Lefts or two Rights do to a heading. *)
Theorem move_and_back_round_trip
    (board_size : Z) (board : Board) (turn_number x y : Z) (h : Heading) :
  board !! (x, y) = Some (h, true) ->
  in_bounds board_size (x, y) ->
  process_turn board_size board turn_number (MovementTurn x y (py "MLLM"))
    = (Returns (MovedShip x y h x y (opposite h)),
       <[(x, y) := (opposite h, true)]> board)
  /\ process_turn board_size board turn_number (MovementTurn x y (py "MRRM"))
    = (Returns (MovedShip x y h x y (opposite h)),
       <[(x, y) := (opposite h, true)]> board)
  /\ rotations (py "LL") h = Some (opposite h)
  /\ rotations (py "RR") h = Some (opposite h).
Proof.
  intros Hship Hin.
  destruct (fold_there_and_back x y h) as [HL HR].
  rewrite <- (insert_delete_eq board (x, y) (opposite h, true)).
  unfold process_turn.
  split; [| split; [| destruct h; split; reflexivity]].
  - apply process_move_moved; auto.
  - apply process_move_moved; auto.
Qed.

Lemma move_and_back_round_trip_witness :
  process_turn 10 basic_board 0 (MovementTurn 5 5 (py "MLLM"))
    = (Returns (MovedShip 5 5 N 5 5 S), <[(5, 5) := (S, true)]> basic_board).
Proof.
  apply (move_and_back_round_trip 10 basic_board 0 5 5 N).
  - vm_compute. reflexivity.
  - unfold in_bounds. simpl. lia.
Defined.

(** ** Shooting *)

(** C2.  A shooting turn at any integer coordinate never raises: with no
    ship there it returns [ShotNoTarget] and the board is unchanged; an alive
    ship is stored as not alive with the same heading at the same coordinate
    and [SunkAliveShip] is returned; a ship already not alive leaves the
    board unchanged as a value and [SunkDeadShip] is returned, so two shots
    in a row at a sunk ship both return [SunkDeadShip] on the same board. *)
Theorem shoot_case_analysis
    (board_size : Z) (board : Board) (turn_number x y : Z) :
  (exists action board',
      process_turn board_size board turn_number (ShootingTurn x y)
      = (Returns action, board'))
  /\ (board !! (x, y) = None ->
      process_turn board_size board turn_number (ShootingTurn x y)
      = (Returns (ShotNoTarget x y), board))
  /\ (forall h, board !! (x, y) = Some (h, true) ->
      exists board' : Board,
        process_turn board_size board turn_number (ShootingTurn x y)
        = (Returns (SunkAliveShip x y), board')
        /\ board' = <[(x, y) := (h, false)]> board
        /\ board' !! (x, y) = Some (h, false)
        /\ (forall k, k <> (x, y) -> board' !! k = board !! k))
  /\ (forall h, board !! (x, y) = Some (h, false) ->
      process_turn board_size board turn_number (ShootingTurn x y)
      = (Returns (SunkDeadShip x y), board))
  /\ (forall h next_turn, board !! (x, y) = Some (h, false) ->
      forall first,
        first = process_turn board_size board turn_number (ShootingTurn x y) ->
        first = (Returns (SunkDeadShip x y), board)
        /\ process_turn board_size first.2 next_turn (ShootingTurn x y)
           = (Returns (SunkDeadShip x y), board)).
Proof.
  assert (Hdead : forall h t, board !! (x, y) = Some (h, false) ->
            process_turn board_size board t (ShootingTurn x y)
            = (Returns (SunkDeadShip x y), board)).
  { intros h t Hship. unfold process_turn, process_shoot. rewrite Hship. simpl.
    rewrite insert_id by exact Hship. reflexivity. }
  unfold process_turn, process_shoot in *.
  split; [| split; [| split; [| split]]].
  - destruct (board !! (x, y)) as [[h [|]] |]; simpl; eauto.
  - intros ->. reflexivity.
  - intros h ->. simpl. eexists. split; [reflexivity |]. split; [reflexivity |].
    split; [apply lookup_insert_eq |].
    intros k Hk. apply lookup_insert_ne. congruence.
  - intros h Hship. apply (Hdead h turn_number Hship).
  - intros h next_turn Hship first ->.
    rewrite (Hdead h turn_number Hship). split; [reflexivity |].
    apply (Hdead h next_turn Hship).
Qed.

Lemma shoot_case_analysis_witness :
  process_turn 10 basic_board 0 (ShootingTurn 5 5)
    = (Returns (SunkAliveShip 5 5), <[(5, 5) := (N, false)]> basic_board)
  /\ process_turn 10 (<[(5, 5) := (N, false)]> basic_board) 0 (ShootingTurn 5 5)
    = (Returns (SunkDeadShip 5 5), <[(5, 5) := (N, false)]> basic_board)
  /\ process_turn 10 basic_board 0 (ShootingTurn 6 5)
    = (Returns (ShotNoTarget 6 5), basic_board).
Proof.
  split; [| split].
  - destruct (shoot_case_analysis 10 basic_board 0 5 5) as (_ & _ & Halive & _).
    destruct (Halive N) as (board' & Hrun & -> & _); [vm_compute; reflexivity |].
    exact Hrun.
  - destruct (shoot_case_analysis 10 (<[(5, 5) := (N, false)]> basic_board) 0 5 5)
      as (_ & _ & _ & Hdead & _).
    apply (Hdead N). vm_compute. reflexivity.
  - destruct (shoot_case_analysis 10 basic_board 0 6 5) as (_ & Hnone & _).
    apply Hnone. vm_compute. reflexivity.
Defined.

(** ** The board invariant *)

Lemma board_ok_insert (board_size : Z) (board : Board) (location : Location)
    (ship : Heading * bool) :
  board_ok board_size board ->
  in_bounds board_size location ->
  board_ok board_size (<[location := ship]> board).
Proof.
  intros [Hkeys _] Hin. split; [| apply NoDup_fst_map_to_list].
  intros k v. rewrite lookup_insert. case_decide; [intros _; subst; exact Hin |].
  apply Hkeys.
Qed.

Lemma board_ok_delete (board_size : Z) (board : Board) (location : Location) :
  board_ok board_size board -> board_ok board_size (delete location board).
Proof.
  intros [Hkeys _]. split; [| apply NoDup_fst_map_to_list].
  intros k v. rewrite lookup_delete. case_decide; [discriminate |]. apply Hkeys.
Qed.

(** C7.  If every key of the board is in bounds and no coordinate is listed
    twice, then after any turn that returns the same holds of the resulting
    board. *)
Theorem board_invariant_preserved
    (board_size : Z) (board board' : Board) (turn_number : Z) (turn : Turn)
    (action : Action) :
  board_ok board_size board ->
  process_turn board_size board turn_number turn = (Returns action, board') ->
  board_ok board_size board'.
Proof.
  intros Hok Hrun. destruct turn as [x y actions | x y |]; simpl in Hrun.
  - unfold process_move in Hrun.
    destruct (board !! (x, y)) as [[h [|]] |]; simpl in Hrun; try discriminate.
    destruct (move_loop actions (x, y) h) as [[location dir] | e]; [| discriminate].
    destruct (_ || _) eqn:Hb; [discriminate |].
    destruct (delete (x, y) board !! location); [discriminate |].
    injection Hrun as _ <-.
    apply board_ok_insert; [apply board_ok_delete; exact Hok |].
    apply out_of_bounds_false. exact Hb.
  - unfold process_shoot in Hrun.
    destruct (board !! (x, y)) as [[h a] |] eqn:Hship.
    + assert (board' = <[(x, y) := (h, false)]> board) as ->
        by (destruct a; simpl in Hrun; congruence).
      apply board_ok_insert; [exact Hok |].
      destruct Hok as [Hkeys _]. eapply Hkeys. exact Hship.
    + injection Hrun as _ <-. exact Hok.
  - discriminate.
Qed.

Lemma basic_board_ok : board_ok 10 basic_board.
Proof.
  split; [| apply NoDup_fst_map_to_list].
  intros k v. unfold basic_board. rewrite lookup_singleton.
  case_decide; [| discriminate]. subst. intros _. unfold in_bounds. simpl. lia.
Qed.

Lemma board_invariant_preserved_witness :
  board_ok 10 ({[ (5, 6) := (N, true) ]} : Board).
Proof.
  apply (board_invariant_preserved 10 basic_board _ 0
           (MovementTurn 5 5 (py "M")) (MovedShip 5 5 N 5 6 N)).
  - exact basic_board_ok.
  - vm_compute. reflexivity.
Defined.

(** ** Building the board *)

Lemma ships_at_cons location ship rest :
  ships_at location (ship :: rest)
  = if (ship_x ship =? location.1) && (ship_y ship =? location.2)
    then ship :: ships_at location rest
    else ships_at location rest.
Proof. reflexivity. Qed.

Lemma initial_board_fold ships : forall (board : Board) location,
  fold_left (fun (board : Board) ship =>
               <[(ship_x ship, ship_y ship) := (direction ship, alive ship)]> board)
            ships board !! location
  = match last (ships_at location ships) with
    | Some ship => Some (direction ship, alive ship)
    | None => board !! location
    end.
Proof.
  induction ships as [| ship rest IH]; intros board [lx ly]; [reflexivity |].
  simpl fold_left. rewrite IH, ships_at_cons. cbn [fst snd].
  destruct ((ship_x ship =? lx) && (ship_y ship =? ly)) eqn:Hat.
  - apply andb_true_iff in Hat as [Hx%Z.eqb_eq Hy%Z.eqb_eq]. subst lx ly.
    destruct (ships_at (ship_x ship, ship_y ship) rest) as [| s l] eqn:Hrest.
    + simpl. apply lookup_insert_eq.
    + rewrite (last_cons ship (s :: l)).
      destruct (last (s :: l)) eqn:Hl; [reflexivity |].
      apply last_None in Hl. discriminate.
  - destruct (last (ships_at (lx, ly) rest)); [reflexivity |].
    apply lookup_insert_ne. intros [= Hx Hy].
    apply andb_false_iff in Hat as [Hat | Hat]; apply Z.eqb_neq in Hat; congruence.
Qed.

(** ** The regular-expression matcher *)

Lemma bind_group_rest g w m : (bind_group g w m).2 = m.2.
Proof. destruct g; reflexivity. Qed.

Lemma bind_group_groups (g : option string) (a : atom) r w ws m :
  m.1 = groups_of r ws ->
  (bind_group g w m).1 = groups_of ((g, a) :: r) (w :: ws).
Proof. destruct g; simpl; congruence. Qed.

(** What a greedy run returns: a run of the class, then a match of the rest. *)
Lemma greedy_sound p k : forall s w m,
  greedy p k s = Some (w, m) ->
  exists s', s = w ++ s' /\ forallb p w = true /\ k s' = Some m.
Proof.
  assert (Hstop : forall s w m, pair [] <$> k s = Some (w, m) ->
            exists s', s = w ++ s' /\ forallb p w = true /\ k s' = Some m).
  { intros s w m H. apply fmap_Some in H as (m' & Hk & [= -> ->]). eauto. }
  induction s as [| c s IH]; intros w m H; simpl in H; [eauto |].
  destruct (p c) eqn:Hc; [| eauto].
  destruct (greedy p k s) as [[w' m'] |] eqn:Hg; [| eauto].
  injection H as <- <-.
  destruct (IH w' m' eq_refl) as (s' & -> & Hw & Hk).
  exists s'. simpl. rewrite Hc, Hw. auto.
Qed.

(** A greedy run succeeds as soon as the rest matches after some run. *)
Lemma greedy_complete p k s : forall w,
  forallb p w = true -> is_Some (k s) -> is_Some (greedy p k (w ++ s)).
Proof.
  assert (Hstop : is_Some (k s) -> is_Some (greedy p k s)).
  { intros [m Hk]. destruct s as [| c s']; simpl; [rewrite Hk; eauto |].
    destruct (p c); [destruct (greedy p k s') as [[] |] |]; rewrite ?Hk; eauto. }
  induction w as [| c w IH]; intros Hw Hk; [auto |].
  simpl in Hw. apply andb_true_iff in Hw as [Hc Hw].
  simpl. rewrite Hc. destruct (IH Hw Hk) as [[w' m'] ->]. eauto.
Qed.

(** Followed by a character outside the class, or by nothing, a greedy run
    takes the whole run. *)
Lemma greedy_maximal p k s m : forall w,
  forallb p w = true -> stops p s = true -> k s = Some m ->
  greedy p k (w ++ s) = Some (w, m).
Proof.
  intros w Hw Hs Hk. induction w as [| c w IH]; simpl.
  - destruct s as [| c s']; simpl; [rewrite Hk; reflexivity |].
    simpl in Hs. apply negb_true_iff in Hs. rewrite Hs, Hk. reflexivity.
  - simpl in Hw. apply andb_true_iff in Hw as [Hc Hw].
    rewrite Hc, (IH Hw). reflexivity.
Qed.

Lemma match_here_sound r : forall s m,
  match_here r s = Some m ->
  exists ws, pieces_match r ws /\ s = concat ws ++ m.2 /\ m.1 = groups_of r ws.
Proof.
  induction r as [| [g a] r IH]; intros s m H; simpl in H.
  - injection H as <-. exists []. repeat split. constructor.
  - destruct a as [c | p | p].
    + destruct s as [| x s]; [discriminate |].
      destruct (Ascii.eqb x c) eqn:Hx; [| discriminate].
      apply Ascii.eqb_eq in Hx as ->.
      apply fmap_Some in H as (m' & Hm & ->).
      destruct (IH s m' Hm) as (ws & Hws & -> & Hg).
      exists ([c] :: ws). rewrite bind_group_rest.
      split; [constructor; [reflexivity | exact Hws] |].
      split; [reflexivity | apply bind_group_groups; exact Hg].
    + apply fmap_Some in H as ([w m'] & Hgr & ->).
      apply greedy_sound in Hgr as (s' & -> & Hw & Hm).
      destruct (IH s' m' Hm) as (ws & Hws & -> & Hg).
      exists (w :: ws). cbn [fst snd]. rewrite bind_group_rest.
      split; [constructor; [exact Hw | exact Hws] |].
      split; [simpl; rewrite <- app_assoc; reflexivity |].
      apply bind_group_groups; exact Hg.
    + destruct s as [| x s]; [discriminate |].
      destruct (p x) eqn:Hx; [| discriminate].
      apply fmap_Some in H as ([w m'] & Hgr & ->).
      apply greedy_sound in Hgr as (s' & -> & Hw & Hm).
      destruct (IH s' m' Hm) as (ws & Hws & -> & Hg).
      exists ((x :: w) :: ws). cbn [fst snd]. rewrite bind_group_rest.
      split; [constructor; [| exact Hws] |].
      * simpl. rewrite Hx, Hw. split; [discriminate | reflexivity].
      * split; [simpl; rewrite <- app_assoc; reflexivity |].
        apply bind_group_groups; exact Hg.
Qed.

Lemma match_here_complete r : forall ws rest,
  pieces_match r ws -> is_Some (match_here r (concat ws ++ rest)).
Proof.
  induction r as [| [g a] r IH]; intros ws rest Hws; inversion Hws as [| ? w ? ws' Hw Hws']; subst.
  - simpl. eauto.
  - specialize (IH ws' rest Hws'). simpl concat. rewrite <- app_assoc.
    destruct a as [c | p | p]; simpl in Hw; simpl match_here.
    + subst w. simpl. rewrite Ascii.eqb_refl.
      destruct IH as [m ->]. simpl. eauto.
    + destruct (greedy_complete p (match_here r) (concat ws' ++ rest) w Hw IH)
        as [wm ->]. simpl. eauto.
    + destruct Hw as [Hne Hw]. destruct w as [| x w]; [congruence |].
      simpl in Hw. apply andb_true_iff in Hw as [Hx Hw]. simpl. rewrite Hx.
      destruct (greedy_complete p (match_here r) (concat ws' ++ rest) w Hw IH)
        as [wm ->]. simpl. eauto.
Qed.

Lemma search_sound r : forall s m,
  search r s = Some m -> has_match r s.
Proof.
  induction s as [| c s IH]; intros m H; simpl in H.
  - destruct (match_here r []) as [m' |] eqn:Hm; [| discriminate].
    apply match_here_sound in Hm as (ws & Hws & Hs & _).
    exists [], (concat ws), m'.2. split; [exact Hs | exists ws; auto].
  - destruct (match_here r (c :: s)) as [m' |] eqn:Hm.
    + apply match_here_sound in Hm as (ws & Hws & Hs & _).
      exists [], (concat ws), m'.2. split; [exact Hs | exists ws; auto].
    + destruct (IH m H) as (pre & w & post & -> & Hw).
      exists (c :: pre), w, post. auto.
Qed.

Lemma search_complete r : forall s,
  has_match r s -> is_Some (search r s).
Proof.
  intros s (pre & w & post & -> & ws & Hws & ->).
  induction pre as [| c pre IH].
  - pose proof (match_here_complete r ws post Hws) as [m Hm].
    simpl app. destruct (concat ws ++ post); simpl; rewrite Hm; eauto.
  - simpl. destruct (match_here r (c :: pre ++ concat ws ++ post)); eauto.
Qed.

Lemma search_None_iff r s : search r s = None <-> ~ has_match r s.
Proof.
  split.
  - intros Hn Hm. apply search_complete in Hm as [m Hm]. congruence.
  - intros Hn. destruct (search r s) as [m |] eqn:Hs; [| reflexivity].
    exfalso. apply Hn. eapply search_sound. exact Hs.
Qed.

Lemma search_here r s m : match_here r s = Some m -> search r s = Some m.
Proof. intros H. destruct s; simpl; rewrite H; reflexivity. Qed.

(** ** The turn pattern *)

Lemma digit_not_space c : is_digit c = true -> is_space c = false.
Proof. destruct c as [[] [] [] [] [] [] [] []]; vm_compute; congruence. Qed.

Lemma space_not_digit c : is_space c = true -> is_digit c = false.
Proof. destruct c as [[] [] [] [] [] [] [] []]; vm_compute; congruence. Qed.

Lemma stops_run p q w s :
  (forall c, q c = true -> p c = false) ->
  forallb q w = true -> stops p s = true -> stops p (w ++ s) = true.
Proof.
  intros Hpq Hw Hs. destruct w as [| c w]; [exact Hs |].
  simpl in *. apply andb_true_iff in Hw as [Hc _]. rewrite (Hpq c Hc). reflexivity.
Qed.

Lemma stops_nonempty p q w s :
  (forall c, q c = true -> p c = false) ->
  w <> [] -> forallb q w = true -> stops p (w ++ s) = true.
Proof.
  intros Hpq Hne Hw. destruct w as [| c w]; [congruence |].
  simpl in *. apply andb_true_iff in Hw as [Hc _]. rewrite (Hpq c Hc). reflexivity.
Qed.

Lemma bind_group_pair g w gs rest :
  bind_group g w (gs, rest) = (add_group g w gs, rest).
Proof. destruct g; reflexivity. Qed.

Lemma match_here_chr g c r s gs rest :
  match_here r s = Some (gs, rest) ->
  match_here ((g, Chr c) :: r) (c :: s) = Some (add_group g [c] gs, rest).
Proof.
  intros H. simpl. rewrite Ascii.eqb_refl, H. simpl.
  rewrite bind_group_pair. reflexivity.
Qed.

Lemma match_here_star g p r w s gs rest :
  forallb p w = true -> stops p s = true ->
  match_here r s = Some (gs, rest) ->
  match_here ((g, Star p) :: r) (w ++ s) = Some (add_group g w gs, rest).
Proof.
  intros Hw Hs H. simpl.
  rewrite (greedy_maximal p (match_here r) s (gs, rest) w Hw Hs H). simpl.
  rewrite bind_group_pair. reflexivity.
Qed.

Lemma match_here_plus g p r w s gs rest :
  w <> [] -> forallb p w = true -> stops p s = true ->
  match_here r s = Some (gs, rest) ->
  match_here ((g, Plus p) :: r) (w ++ s) = Some (add_group g w gs, rest).
Proof.
  intros Hne Hw Hs H. destruct w as [| x w]; [congruence |].
  simpl in Hw. apply andb_true_iff in Hw as [Hx Hw]. simpl. rewrite Hx.
  rewrite (greedy_maximal p (match_here r) s (gs, rest) w Hw Hs H). simpl.
  rewrite bind_group_pair. reflexivity.
Qed.

(** The match of the turn pattern at the start of a text of the shape
    [( X , Y ) actions], followed by [rest]. *)
Lemma turn_regex_match ws1 xs ws2 ws3 ys ws4 ws5 actions rest :
  forallb is_space ws1 = true -> xs <> [] -> forallb is_digit xs = true ->
  forallb is_space ws2 = true -> forallb is_space ws3 = true ->
  ys <> [] -> forallb is_digit ys = true ->
  forallb is_space ws4 = true -> forallb is_space ws5 = true ->
  forallb is_LRM actions = true ->
  stops is_space (actions ++ rest) = true -> stops is_LRM rest = true ->
  match_here TURN_REGEX
    ("("%char :: ws1 ++ xs ++ ws2 ++ ","%char :: ws3 ++ ys ++ ws4
       ++ ")"%char :: ws5 ++ actions ++ rest)
  = Some ([("x_coord"%string, xs); ("y_coord"%string, ys);
           ("actions"%string, actions)], rest).
Proof.
  intros H1 Hx0 Hx H2 H3 Hy0 Hy H4 H5 Ha Hsp Hrest. unfold TURN_REGEX.
  apply (match_here_chr None).
  apply (match_here_star None); [exact H1 | |].
  { eapply stops_nonempty; eauto using digit_not_space. }
  apply (match_here_plus (Some "x_coord"%string)); [exact Hx0 | exact Hx | |].
  { eapply stops_run; eauto using space_not_digit. }
  apply (match_here_star None); [exact H2 | reflexivity |].
  apply (match_here_chr None).
  apply (match_here_star None); [exact H3 | |].
  { eapply stops_nonempty; eauto using digit_not_space. }
  apply (match_here_plus (Some "y_coord"%string)); [exact Hy0 | exact Hy | |].
  { eapply stops_run; eauto using space_not_digit. }
  apply (match_here_star None); [exact H4 | reflexivity |].
  apply (match_here_chr None).
  apply (match_here_star None); [exact H5 | exact Hsp |].
  apply (match_here_star (Some "actions"%string)); [exact Ha | exact Hrest |].
  reflexivity.
Qed.

Lemma int_run xs :
  xs <> [] -> forallb is_digit xs = true ->
  int xs = if (int_max_str_digits <? length xs)%nat then None
           else Some (digits_value xs).
Proof.
  intros Hne Hd. destruct xs; [congruence |]. unfold int. rewrite Hd. reflexivity.
Qed.

Lemma int_digits xs :
  xs <> [] -> forallb is_digit xs = true ->
  (length xs <= int_max_str_digits)%nat ->
  int xs = Some (digits_value xs).
Proof.
  intros Hne Hd Hlen. rewrite (int_run xs Hne Hd).
  destruct (Nat.ltb_spec int_max_str_digits (length xs)); [lia | reflexivity].
Qed.

Lemma int_too_long xs :
  xs <> [] -> forallb is_digit xs = true ->
  (int_max_str_digits < length xs)%nat ->
  int xs = None.
Proof.
  intros Hne Hd Hlen. rewrite (int_run xs Hne Hd).
  destruct (Nat.ltb_spec int_max_str_digits (length xs)); [reflexivity | lia].
Qed.

(** Where the search finds a match, the match is one at some suffix. *)
Lemma search_found r : forall s m,
  search r s = Some m -> exists pre s', s = pre ++ s' /\ match_here r s' = Some m.
Proof.
  induction s as [| c s IH]; intros m H; simpl in H.
  - destruct (match_here r []) eqn:Hm; [| discriminate].
    exists [], []. split; [reflexivity | congruence].
  - destruct (match_here r (c :: s)) eqn:Hm.
    + exists [], (c :: s). split; [reflexivity | congruence].
    + destruct (IH m H) as (pre & s' & -> & Hs'). exists (c :: pre), s'. auto.
Qed.

(** The groups of any match of the turn pattern: two non-empty digit runs
    and a run of action letters. *)
Lemma turn_match_groups s m :
  match_here TURN_REGEX s = Some m ->
  exists xs ys actions,
    m.1 = [("x_coord"%string, xs); ("y_coord"%string, ys); ("actions"%string, actions)]
    /\ xs <> [] /\ forallb is_digit xs = true
    /\ ys <> [] /\ forallb is_digit ys = true
    /\ forallb is_LRM actions = true.
Proof.
  intros H. apply match_here_sound in H as (ws & Hws & _ & Hg).
  unfold pieces_match, TURN_REGEX in Hws.
  repeat match goal with
         | H : Forall2 _ (_ :: _) _ |- _ => inversion H; clear H; subst
         | H : Forall2 _ [] _ |- _ => inversion H; clear H; subst
         end.
  simpl in *.
  repeat match goal with H : _ /\ _ |- _ => destruct H end.
  eauto 12.
Qed.

(** The outcome of the parser once the search has found a match. *)
Lemma make_turn_of_match line xs ys actions rest :
  search TURN_REGEX (strip line)
    = Some ([("x_coord"%string, xs); ("y_coord"%string, ys);
             ("actions"%string, actions)], rest) ->
  xs <> [] -> forallb is_digit xs = true ->
  ys <> [] -> forallb is_digit ys = true ->
  (length xs <= int_max_str_digits)%nat ->
  (length ys <= int_max_str_digits)%nat ->
  make_turn_from_line line
  = Returns (match actions with
             | [] => ShootingTurn (digits_value xs) (digits_value ys)
             | _ :: _ => MovementTurn (digits_value xs) (digits_value ys) actions
             end).
Proof.
  intros Hs Hx0 Hx Hy0 Hy Hxl Hyl. unfold make_turn_from_line. rewrite Hs.
  cbn [group dict_get String.eqb Ascii.eqb Bool.eqb fst snd].
  rewrite (int_digits xs Hx0 Hx Hxl), (int_digits ys Hy0 Hy Hyl).
  destruct actions; reflexivity.
Qed.

(** A coordinate of the match too long for [int]: the parser raises its
    [ValueError]. *)
Lemma make_turn_too_long line xs ys actions rest :
  search TURN_REGEX (strip line)
    = Some ([("x_coord"%string, xs); ("y_coord"%string, ys);
             ("actions"%string, actions)], rest) ->
  xs <> [] -> forallb is_digit xs = true ->
  ys <> [] -> forallb is_digit ys = true ->
  (int_max_str_digits < length xs \/ int_max_str_digits < length ys)%nat ->
  make_turn_from_line line = Raises ValueError.
Proof.
  intros Hs Hx0 Hx Hy0 Hy Hlong. unfold make_turn_from_line. rewrite Hs.
  cbn [group dict_get String.eqb Ascii.eqb Bool.eqb fst snd].
  rewrite (int_run xs Hx0 Hx).
  destruct (Nat.ltb_spec int_max_str_digits (length xs)); [reflexivity |].
  rewrite (int_too_long ys Hy0 Hy) by lia. reflexivity.
Qed.

Lemma make_turn_cases line : parse_case line.
Proof.
  destruct (search TURN_REGEX (strip line)) as [[gs rest] |] eqn:Hs.
  - destruct (search_found _ _ _ Hs) as (pre & s' & _ & Hm).
    destruct (turn_match_groups _ _ Hm)
      as (xs & ys & actions & Hg & Hx0 & Hx & Hy0 & Hy & Ha).
    simpl in Hg. subst gs.
    destruct (Nat.ltb_spec int_max_str_digits (length xs)) as [Hxl | Hxl].
    { eapply parse_too_long; [exact Hs | lia |].
      eapply make_turn_too_long; eauto. }
    destruct (Nat.ltb_spec int_max_str_digits (length ys)) as [Hyl | Hyl].
    { eapply parse_too_long; [exact Hs | lia |].
      eapply make_turn_too_long; eauto. }
    apply (parse_turn line xs ys actions rest Hs Hx Hy Ha); [lia | lia |].
    apply (make_turn_of_match line xs ys actions rest Hs Hx0 Hx Hy0 Hy); lia.
  - apply parse_no_match; [exact Hs |].
    unfold make_turn_from_line. rewrite Hs. reflexivity.
Qed.

(** What the parser returns is well formed: a movement turn carries a
    non-empty run of the letters L, R and M. *)
Lemma parsed_turn_well_formed line turn :
  make_turn_from_line line = Returns turn ->
  match turn with
  | MovementTurn x y actions => actions <> [] /\ forallb is_LRM actions = true
  | ShootingTurn x y => True
  | OtherTurn => False
  end.
Proof.
  intros H.
  destruct (make_turn_cases line)
    as [_ Hf | xs ys actions rest _ _ Hf | xs ys actions rest _ _ _ Ha _ _ Hf];
    rewrite Hf in H; try discriminate.
  injection H as <-. destruct actions; [exact I |]. split; [discriminate | exact Ha].
Qed.


Lemma atom_lang_accepts a w : atom_lang a w -> forallb (atom_accepts a) w = true.
Proof.
  destruct a as [c | p | p]; simpl.
  - intros ->. simpl. rewrite Ascii.eqb_refl. reflexivity.
  - auto.
  - intros [_ H]. exact H.
Qed.

(** Every character of a text in the language of a pattern is one that some
    atom of the pattern consumes. *)
Lemma regex_lang_accepts r w : regex_lang r w -> forallb (regex_accepts r) w = true.
Proof.
  intros (ws & Hws & ->). induction Hws as [| ga w r ws Hw Hws IH]; [reflexivity |].
  simpl concat. rewrite forallb_app. apply andb_true_iff. split.
  - apply atom_lang_accepts in Hw. rewrite forallb_forall in *.
    intros c Hc. unfold regex_accepts. simpl. rewrite (Hw c Hc). reflexivity.
  - rewrite forallb_forall in *. intros c Hc. unfold regex_accepts in *. simpl.
    rewrite (IH c Hc). apply orb_true_r.
Qed.

(** ** Parsing *)

(** C4, the claim as stated fails: a line with a character outside L, R, M
    after the action run, and a line with text before the parenthesis, are
    not in the language of the turn pattern, yet both parse to a turn. *)
Lemma parser_accepts_lines_outside_grammar :
  make_turn_from_line (py "(1,2)X") = Returns (ShootingTurn 1 2)
  /\ ~ regex_lang TURN_REGEX (strip (py "(1,2)X"))
  /\ make_turn_from_line (py "go (3,4)LMQ") = Returns (MovementTurn 3 4 (py "LM"))
  /\ ~ regex_lang TURN_REGEX (strip (py "go (3,4)LMQ")).
Proof.
  split; [vm_compute; reflexivity |].
  split; [intros H; apply regex_lang_accepts in H; vm_compute in H; discriminate |].
  split; [vm_compute; reflexivity |].
  intros H; apply regex_lang_accepts in H; vm_compute in H; discriminate.
Qed.

(** C4, amended.  The parser fails in exactly two ways.  On a line whose
    stripped text has no substring in the language of the turn pattern it
    raises the [AttributeError] of reading a group of the missing match.  On
    a line whose leftmost match holds a coordinate of more digits than [int]
    converts it raises the [ValueError] of [int].  Every other line yields a
    turn, whatever stands before the match or after the action run. *)
Theorem parser_failure_characterization (line : list ascii) :
  (make_turn_from_line line = Raises AttributeError
   <-> ~ has_match TURN_REGEX (strip line))
  /\ (make_turn_from_line line = Raises ValueError
      <-> exists gs rest xs ys,
            search TURN_REGEX (strip line) = Some (gs, rest)
            /\ group gs "x_coord" = Some xs /\ group gs "y_coord" = Some ys
            /\ (int_max_str_digits < length xs
                \/ int_max_str_digits < length ys)%nat)
  /\ ((exists turn, make_turn_from_line line = Returns turn)
      <-> exists gs rest xs ys,
            search TURN_REGEX (strip line) = Some (gs, rest)
            /\ group gs "x_coord" = Some xs /\ group gs "y_coord" = Some ys
            /\ (length xs <= int_max_str_digits)%nat
            /\ (length ys <= int_max_str_digits)%nat)
  /\ (forall e, make_turn_from_line line = Raises e ->
        e = AttributeError \/ e = ValueError).
Proof.
  destruct (make_turn_cases line)
    as [Hs Hf | xs ys actions rest Hs Hlong Hf
        | xs ys actions rest Hs _ _ _ Hxl Hyl Hf]; rewrite Hf.
  - assert (Hno : ~ has_match TURN_REGEX (strip line))
      by (apply search_None_iff; exact Hs).
    split; [tauto |].
    split; [split; [discriminate | intros (gs & rest & xs & ys & H & _); congruence] |].
    split; [split; [intros [turn Ht]; discriminate
                   | intros (gs & rest & xs & ys & H & _); congruence] |].
    intros e [= <-]. auto.
  - assert (Hhas : has_match TURN_REGEX (strip line)) by (eapply search_sound; eauto).
    split; [split; [discriminate | tauto] |].
    split; [split; [intros _; do 4 eexists; split; [exact Hs |];
                    split; [reflexivity |]; split; [reflexivity | exact Hlong]
                   | reflexivity] |].
    split; [split; [intros [turn Ht]; discriminate |] |].
    + intros (gs & rest' & xs' & ys' & H & Hx & Hy & Hxl & Hyl).
      rewrite Hs in H. injection H as <- <-.
      cbn [group dict_get String.eqb Ascii.eqb Bool.eqb] in Hx, Hy.
      injection Hx as <-. injection Hy as <-. lia.
    + intros e [= <-]. auto.
  - assert (Hhas : has_match TURN_REGEX (strip line)) by (eapply search_sound; eauto).
    split; [split; [discriminate | tauto] |].
    split; [split; [discriminate |] |].
    + intros (gs & rest' & xs' & ys' & H & Hx & Hy & Hlong).
      rewrite Hs in H. injection H as <- <-.
      cbn [group dict_get String.eqb Ascii.eqb Bool.eqb] in Hx, Hy.
      injection Hx as <-. injection Hy as <-. lia.
    + split; [| discriminate].
      split; [| eauto].
      intros _. do 4 eexists. split; [exact Hs |].
      split; [reflexivity |]. split; [reflexivity |]. split; assumption.
Qed.




(** ** The initial fleet *)

(** C6, the claim as stated fails: a fleet with two ships on one coordinate
    and a fleet with a ship off the board both build a board, and the run
    returns it. *)
Lemma initial_fleet_not_validated :
  run 10 [mkShip 1 1 N true; mkShip 1 1 E true] [] None
    = (Returns {[ (1, 1) := (E, true) ]}, None)
  /\ run 10 [mkShip 20 (-3) N true] [] None
    = (Returns {[ (20, -3) := (N, true) ]}, None).
Proof. split; vm_compute; reflexivity. Qed.

(** C6, amended.  For every board size and initial ship list, constructing
    the board does not fail and checks nothing: each location holds the
    direction and state of the last ship listed at it, in bounds or not, and
    no ship where none is listed. *)
Theorem initial_board_unchecked (board_size : Z) (initial_ships : list Ship)
    (actionList : option (list Action)) :
  run board_size initial_ships [] actionList
    = (Returns (initial_board initial_ships), actionList)
  /\ (forall location : Location,
        initial_board initial_ships !! location
        = (fun ship => (direction ship, alive ship))
            <$> last (ships_at location initial_ships)).
Proof.
  split; [reflexivity |].
  intros location. unfold initial_board. rewrite initial_board_fold.
  destruct (last (ships_at location initial_ships)); [reflexivity |].
  apply lookup_empty.
Qed.

(* ===================================================================== *)
(** * Further properties of the code *)
(* ===================================================================== *)

(** ** What the parser can return *)

Lemma digits_value_acc s : forall acc,
  0 <= acc -> forallb is_digit s = true ->
  0 <= fold_left (fun acc c => 10 * acc + (Z.of_N (code c) - 48)) s acc.
Proof.
  induction s as [| c s IH]; intros acc Hacc Hd; [exact Hacc |].
  simpl in Hd. apply andb_true_iff in Hd as [Hc Hd]. simpl. apply IH; [| exact Hd].
  unfold is_digit in Hc. apply andb_true_iff in Hc as [Hlo _].
  apply N.leb_le in Hlo. lia.
Qed.

Lemma digits_value_nonneg s : forallb is_digit s = true -> 0 <= digits_value s.
Proof. intros Hd. apply digits_value_acc; [lia | exact Hd]. Qed.

Lemma parsed_turn_shape line turn :
  make_turn_from_line line = Returns turn -> parsed_shape turn.
Proof.
  intros H.
  destruct (make_turn_cases line)
    as [_ Hf | xs ys actions rest _ _ Hf | xs ys actions rest _ Hx Hy Ha _ _ Hf];
    rewrite Hf in H; try discriminate.
  injection H as <-.
  pose proof (digits_value_nonneg xs Hx). pose proof (digits_value_nonneg ys Hy).
  destruct actions; simpl; repeat split; auto; discriminate.
Qed.

(** X1.  Whatever the line, a turn the parser returns has non-negative
    coordinates, and a movement turn carries a non-empty run made only of the
    letters L, R and M. *)
Theorem parser_returns_well_formed_turns (line : list ascii) (turn : Turn) :
  make_turn_from_line line = Returns turn ->
  match turn with
  | MovementTurn x y actions =>
      0 <= x /\ 0 <= y /\ actions <> [] /\ forallb is_LRM actions = true
  | ShootingTurn x y => 0 <= x /\ 0 <= y
  | OtherTurn => False
  end.
Proof. apply parsed_turn_shape. Qed.

Lemma parser_returns_well_formed_turns_witness :
  0 <= 3 /\ 0 <= 4 /\ py "LM" <> [] /\ forallb is_LRM (py "LM") = true.
Proof.
  apply (parser_returns_well_formed_turns (py "go (3,4)LMQ") (MovementTurn 3 4 (py "LM"))).
  vm_compute. reflexivity.
Defined.

(** ** Exceptions of a turn *)

Lemma move_case_violation (board_size : Z) (board : Board) (turn_number x y : Z)
    (actions : list ascii) (r : Outcome Action * Board) :
  move_case board_size board turn_number x y actions r ->
  forall e, r.1 = Raises e -> rule_violation turn_number e.
Proof.
  intros Hc e He. unfold rule_violation.
  destruct Hc; simpl in He; try discriminate; injection He as <-; eauto 10.
Qed.

Lemma shoot_returns (board_size : Z) (board : Board) (turn_number x y : Z) :
  exists action, (process_shoot board_size board turn_number x y).1 = Returns action.
Proof.
  unfold process_shoot. destruct (board !! (x, y)) as [[h [|]] |]; simpl; eauto.
Qed.

(** X2.  The assertion in the loop of [process_move] is guaranteed by the
    regex: on a turn the parser returned, [process_turn] raises nothing but
    one of the four rule violations, carrying the turn number; never
    [AssertionError], [KeyError] or [InvalidTurnType]. *)
Theorem parsed_turn_raises_only_rule_violations
    (line : list ascii) (turn : Turn) (board_size : Z) (board : Board)
    (turn_number : Z) (e : Exn) :
  make_turn_from_line line = Returns turn ->
  (process_turn board_size board turn_number turn).1 = Raises e ->
  exists x y,
    e = NoShipAtLocation turn_number x y \/ e = MovingSunkShip turn_number x y
    \/ e = MoveOutsideBoard turn_number x y \/ e = ShipAtMoveTarget turn_number x y.
Proof.
  intros Hparse He. apply parsed_turn_shape in Hparse.
  destruct turn as [x y actions | x y |]; simpl in *.
  - destruct Hparse as (_ & _ & _ & Hok).
    eapply move_case_violation; [apply process_move_cases; exact Hok | exact He].
  - destruct (shoot_returns board_size board turn_number x y) as [a Ha]. congruence.
  - contradiction.
Qed.

Lemma parsed_turn_raises_only_rule_violations_witness :
  exists x y,
    ShipAtMoveTarget 7 4 5 = NoShipAtLocation 7 x y
    \/ ShipAtMoveTarget 7 4 5 = MovingSunkShip 7 x y
    \/ ShipAtMoveTarget 7 4 5 = MoveOutsideBoard 7 x y
    \/ ShipAtMoveTarget 7 4 5 = ShipAtMoveTarget 7 x y.
Proof.
  apply (parsed_turn_raises_only_rule_violations (py "(2, 2)MMMRMM")
           (MovementTurn 2 2 (py "MMMRMM")) 8 illegal_board 7).
  - vm_compute. reflexivity.
  - vm_compute. reflexivity.
Defined.

Lemma move_loop_assert pre : forall c post location h,
  forallb is_LRM pre = true -> is_LRM c = false ->
  move_loop (pre ++ c :: post) location h = Raises AssertionError.
Proof.
  induction pre as [| a pre IH]; intros c post location h Hpre Hc.
  - simpl. unfold is_LRM in Hc. apply orb_false_iff in Hc as [Hlr Hm].
    rewrite Hlr, Hm. reflexivity.
  - simpl in Hpre. apply andb_true_iff in Hpre as [Ha Hpre]. simpl app.
    destruct (is_LRM_cases a Ha) as [-> | [-> | ->]]; simpl move_loop.
    + rewrite rotate_L. apply IH; assumption.
    + rewrite rotate_R. apply IH; assumption.
    + rewrite delta_spec. apply IH; assumption.
Qed.

(** X3.  A movement turn built by hand with a character other than L, R and
    M among its actions, ordered on an alive ship, fails the assertion at
    the first such character, whatever follows it; by then the ship has
    been taken off the board, which is left without it. *)
Theorem bad_action_raises_assertion
    (board_size : Z) (board : Board) (turn_number x y : Z) (h : Heading)
    (pre post : list ascii) (c : ascii) :
  board !! (x, y) = Some (h, true) ->
  forallb is_LRM pre = true ->
  is_LRM c = false ->
  process_turn board_size board turn_number (MovementTurn x y (pre ++ c :: post))
  = (Raises AssertionError, delete (x, y) board).
Proof.
  intros Hship Hpre Hc. unfold process_turn, process_move. rewrite Hship. simpl.
  rewrite (move_loop_assert pre c post (x, y) h Hpre Hc). reflexivity.
Qed.

Lemma bad_action_raises_assertion_witness :
  process_turn 10 basic_board 0 (MovementTurn 5 5 (py "LMxM"))
  = (Raises AssertionError, delete (5, 5) basic_board).
Proof.
  apply (bad_action_raises_assertion 10 basic_board 0 5 5 N (py "LM") (py "M") "x");
    reflexivity.
Defined.

(** ** How far and where a move goes *)

Lemma delta_unit h d : delta h = Some d -> Z.abs d.1 + Z.abs d.2 = 1.
Proof. destruct h; intros [= <-]; reflexivity. Qed.

Lemma move_loop_displacement actions : forall (location location' : Location) h h',
  move_loop actions location h = Returns (location', h') ->
  Z.abs (location'.1 - location.1) + Z.abs (location'.2 - location.2)
  <= Z.of_nat (count_M actions).
Proof.
  induction actions as [| a rest IH]; intros location location' h h' H; simpl in H.
  - injection H as <- <-. unfold count_M. simpl. lia.
  - unfold count_M in *. simpl List.filter.
    destruct (Ascii.eqb a "L" || Ascii.eqb a "R") eqn:Hlr.
    + assert (Hm : Ascii.eqb a "M" = false).
      { apply orb_true_iff in Hlr as [Hl | Hr]; apply Ascii.eqb_eq in Hl || apply Ascii.eqb_eq in Hr;
          subst; reflexivity. }
      rewrite Hm. destruct (rotate h a); [| discriminate]. eapply IH. exact H.
    + destruct (Ascii.eqb a "M"); [| discriminate].
      destruct (delta h) as [d |] eqn:Hd; [| discriminate].
      apply delta_unit in Hd. apply IH in H. simpl in H. simpl length. lia.
Qed.

(** X4.  A movement turn that returns reports the start it was given and an
    end that is on the board, where the ship now stands alive, and the end
    is at most as many cells from the start, counted along the axes, as
    there are M actions in the sequence. *)
Theorem returned_move_is_bounded
    (board_size : Z) (board board' : Board) (turn_number x y : Z)
    (actions : list ascii) (action : Action) :
  process_turn board_size board turn_number (MovementTurn x y actions)
    = (Returns action, board') ->
  exists h fx fy fh,
    action = MovedShip x y h fx fy fh
    /\ board !! (x, y) = Some (h, true)
    /\ in_bounds board_size (fx, fy)
    /\ board' !! (fx, fy) = Some (fh, true)
    /\ Z.abs (fx - x) + Z.abs (fy - y) <= Z.of_nat (count_M actions).
Proof.
  unfold process_turn, process_move. intros Hrun.
  destruct (board !! (x, y)) as [[h [|]] |] eqn:Hship; simpl in Hrun; try discriminate.
  destruct (move_loop actions (x, y) h) as [[[fx fy] fh] | e] eqn:Hloop; [| discriminate].
  cbn [fst snd] in Hrun.
  destruct ((fx <? 0) || (fy <? 0) || (fx >=? board_size) || (fy >=? board_size))
    eqn:Hb; [discriminate |].
  destruct (delete (x, y) board !! (fx, fy)); [discriminate |].
  injection Hrun as <- <-. exists h, fx, fy, fh.
  split; [reflexivity |]. split; [reflexivity |].
  split; [apply (out_of_bounds_false board_size (fx, fy)); exact Hb |].
  split; [apply lookup_insert_eq |].
  apply (move_loop_displacement actions (x, y) (fx, fy) h fh Hloop).
Qed.

Lemma returned_move_is_bounded_witness :
  exists h fx fy fh,
    MovedShip 5 5 N 2 2 W = MovedShip 5 5 h fx fy fh
    /\ basic_board !! (5, 5) = Some (h, true)
    /\ in_bounds 10 (fx, fy)
    /\ ({[ (2, 2) := (W, true) ]} : Board) !! (fx, fy) = Some (fh, true)
    /\ Z.abs (fx - 5) + Z.abs (fy - 5) <= Z.of_nat (count_M (py "LLMMMRMMLRM")).
Proof.
  apply (returned_move_is_bounded 10 basic_board _ 0 5 5 (py "LLMMMRMMLRM")).
  vm_compute. reflexivity.
Defined.

Lemma rotations_cons a rest h :
  rotations (a :: rest) h
  = match rotate h a with Some h1 => rotations rest h1 | None => None end.
Proof.
  unfold rotations. simpl. destruct (rotate h a); [reflexivity |].
  induction rest as [| b rest IH]; [reflexivity | exact IH].
Qed.

Lemma move_loop_rotations actions : forall location h,
  forallb is_LR actions = true ->
  exists h', rotations actions h = Some h'
             /\ move_loop actions location h = Returns (location, h').
Proof.
  induction actions as [| a rest IH]; intros location h Hok; [eauto |].
  simpl in Hok. apply andb_true_iff in Hok as [Ha Hrest].
  rewrite rotations_cons. simpl. unfold is_LR in Ha. rewrite Ha.
  assert (Hr : is_Some (rotate h a)).
  { apply orb_true_iff in Ha as [Hl | Hr]; apply Ascii.eqb_eq in Hl || apply Ascii.eqb_eq in Hr;
      subst; rewrite ?rotate_L, ?rotate_R; eauto. }
  destruct Hr as [h1 ->]. apply IH. exact Hrest.
Qed.

(** X5.  A movement turn made only of L and R, ordered on an alive ship
    that stands on the board, always returns: the ship keeps its coordinate
    and takes the heading the table gives for the rotations in order, and
    no other entry of the board changes. *)
Theorem rotation_only_turn_succeeds
    (board_size : Z) (board : Board) (turn_number x y : Z) (h : Heading)
    (actions : list ascii) :
  board !! (x, y) = Some (h, true) ->
  in_bounds board_size (x, y) ->
  forallb is_LR actions = true ->
  exists h',
    rotations actions h = Some h'
    /\ process_turn board_size board turn_number (MovementTurn x y actions)
       = (Returns (MovedShip x y h x y h'), <[(x, y) := (h', true)]> board).
Proof.
  intros Hship Hin Hok.
  destruct (move_loop_rotations actions (x, y) h Hok) as (h' & Hrot & Hloop).
  exists h'. split; [exact Hrot |].
  unfold process_turn, process_move. rewrite Hship. simpl. rewrite Hloop.
  cbn [fst snd].
  pose proof (proj2 (out_of_bounds_false board_size (x, y)) Hin) as Hb.
  cbn [fst snd] in Hb. rewrite Hb, lookup_delete_eq, insert_delete_eq. reflexivity.
Qed.

Lemma rotation_only_turn_succeeds_witness :
  exists h',
    rotations (py "LLR") N = Some h'
    /\ process_turn 10 basic_board 0 (MovementTurn 5 5 (py "LLR"))
       = (Returns (MovedShip 5 5 N 5 5 h'), <[(5, 5) := (h', true)]> basic_board).
Proof.
  apply (rotation_only_turn_succeeds 10 basic_board 0 5 5 N (py "LLR")).
  - vm_compute. reflexivity.
  - unfold in_bounds. simpl. lia.
  - reflexivity.
Defined.

(** ** What a turn leaves in place *)

Lemma sunk_ship_stays_any
    (board_size : Z) (board : Board) (turn_number : Z) (turn : Turn)
    (location : Location) (h : Heading) :
  board !! location = Some (h, false) ->
  (process_turn board_size board turn_number turn).2 !! location = Some (h, false).
Proof.
  intros Hdead. destruct turn as [x y actions | x y |]; simpl; [| | exact Hdead].
  - unfold process_move.
    destruct (board !! (x, y)) as [[h0 [|]] |] eqn:Hship; simpl; try exact Hdead.
    assert (Hne : (x, y) <> location) by congruence.
    assert (Hdel : delete (x, y) board !! location = Some (h, false))
      by (rewrite lookup_delete_ne by exact Hne; exact Hdead).
    destruct (move_loop actions (x, y) h0) as [[target dir] | e]; simpl; [| exact Hdel].
    destruct (_ || _); simpl; [exact Hdel |].
    destruct (delete (x, y) board !! target) eqn:Htarget; simpl; [exact Hdel |].
    rewrite lookup_insert_ne by congruence. exact Hdel.
  - unfold process_shoot.
    destruct (board !! (x, y)) as [[h0 a] |] eqn:Hship; simpl; [| exact Hdead].
    assert (Hboard : (if a then (Returns (SunkAliveShip x y), <[(x, y) := (h0, false)]> board)
                      else (Returns (SunkDeadShip x y), <[(x, y) := (h0, false)]> board)).2
                     = <[(x, y) := (h0, false)]> board) by (destruct a; reflexivity).
    rewrite Hboard. destruct (decide ((x, y) = location)) as [Heq | Hne].
    + rewrite <- Heq in *. rewrite lookup_insert_eq. congruence.
    + rewrite lookup_insert_ne by exact Hne. exact Hdead.
Qed.

(** X6.  Sinking is final: a ship that is not alive stays where it is, with
    its heading and not alive, through every turn, whether the turn returns
    or raises; it cannot be moved, moved onto, or revived by a shot. *)
Theorem sunk_ship_stays
    (board_size : Z) (board : Board) (turn_number : Z) (turn : Turn)
    (location : Location) (h : Heading) :
  board !! location = Some (h, false) ->
  (process_turn board_size board turn_number turn).2 !! location = Some (h, false).
Proof. apply sunk_ship_stays_any. Qed.

Lemma sunk_ship_stays_witness :
  (process_turn 8 illegal_board 0 (MovementTurn 2 2 (py "MMMRMM"))).2 !! (4, 5)
  = Some (E, false).
Proof.
  apply (sunk_ship_stays 8 illegal_board 0 (MovementTurn 2 2 (py "MMMRMM")) (4, 5) E).
  vm_compute. reflexivity.
Defined.

Lemma process_turn_size (board_size : Z) (board board' : Board) (turn_number : Z)
    (turn : Turn) (action : Action) :
  process_turn board_size board turn_number turn = (Returns action, board') ->
  size board' = size board.
Proof.
  intros Hrun. destruct turn as [x y actions | x y |]; simpl in Hrun; [| | discriminate].
  - unfold process_move in Hrun.
    destruct (board !! (x, y)) as [[h [|]] |] eqn:Hship; simpl in Hrun; try discriminate.
    destruct (move_loop actions (x, y) h) as [[target dir] | e]; [| discriminate].
    destruct (_ || _); [discriminate |].
    destruct (delete (x, y) board !! target) eqn:Htarget; [discriminate |].
    injection Hrun as _ <-.
    rewrite map_size_insert_None by exact Htarget.
    rewrite map_size_delete_Some by eauto.
    pose proof (map_size_ne_0_lookup_2 board (x, y) (ltac:(eauto))). lia.
  - unfold process_shoot in Hrun.
    destruct (board !! (x, y)) as [[h a] |] eqn:Hship.
    + assert (board' = <[(x, y) := (h, false)]> board) as ->
        by (destruct a; simpl in Hrun; congruence).
      apply map_size_insert_Some. eauto.
    + injection Hrun as _ <-. reflexivity.
Qed.

(** ** The run *)

Lemma run_loop_app board_size ts1 : forall (board : Board) turn_number ts2 actionList,
  run_loop board_size board turn_number (ts1 ++ ts2) actionList
  = match run_loop board_size board turn_number ts1 actionList with
    | (Returns board', actionList') =>
        run_loop board_size board' (turn_number + Z.of_nat (length ts1)) ts2 actionList'
    | (Raises e, actionList') => (Raises e, actionList')
    end.
Proof.
  induction ts1 as [| turn rest IH]; intros board turn_number ts2 actionList.
  - simpl. rewrite Z.add_0_r. reflexivity.
  - simpl app. simpl run_loop.
    destruct (process_turn board_size board turn_number turn) as [[action | e] board'];
      [| reflexivity].
    rewrite IH.
    replace (turn_number + 1 + Z.of_nat (length rest))
      with (turn_number + Z.of_nat (length (turn :: rest))) by (simpl length; lia).
    reflexivity.
Qed.

(** X7.  A run over two batches of turns is the run over the first batch
    followed, if that returns, by the loop over the second from the board
    it left, with the turn numbers continuing at the length of the first
    batch and the same action list; if the first batch raises, the second
    is never looked at. *)
Theorem run_over_concatenation
    (board_size : Z) (initial_ships : list Ship) (ts1 ts2 : list Turn)
    (actionList : option (list Action)) :
  run board_size initial_ships (ts1 ++ ts2) actionList
  = match run board_size initial_ships ts1 actionList with
    | (Returns board', actionList') =>
        run_loop board_size board' (Z.of_nat (length ts1)) ts2 actionList'
    | (Raises e, actionList') => (Raises e, actionList')
    end.
Proof. unfold run. rewrite run_loop_app. reflexivity. Qed.

Lemma run_loop_actions board_size turns :
  forall (board : Board) turn_number (l : list Action) out actionList',
    run_loop board_size board turn_number turns (Some l) = (out, actionList') ->
    exists l',
      actionList' = Some (l ++ l')
      /\ (forall n action,
            l' !! n = Some action ->
            exists (board_n : Board) turn,
              turns !! n = Some turn
              /\ run_loop board_size board turn_number (take n turns) None
                 = (Returns board_n, None)
              /\ (process_turn board_size board_n (turn_number + Z.of_nat n) turn).1
                 = Returns action)
      /\ match out with
         | Returns _ => length l' = length turns
         | Raises e =>
             exists (board_n : Board) turn,
               turns !! length l' = Some turn
               /\ run_loop board_size board turn_number (take (length l') turns) None
                  = (Returns board_n, None)
               /\ (process_turn board_size board_n
                     (turn_number + Z.of_nat (length l')) turn).1 = Raises e
         end.
Proof.
  induction turns as [| turn rest IH]; intros board turn_number l out al' H; simpl in H.
  - injection H as <- <-. exists []. rewrite app_nil_r.
    split; [reflexivity |]. split; [| reflexivity].
    intros n action Hn. rewrite lookup_nil in Hn. discriminate.
  - destruct (process_turn board_size board turn_number turn) as [[a | e] board1]
      eqn:Hturn.
    + apply IH in H as (l' & -> & Hall & Hout). exists (a :: l').
      rewrite <- app_assoc. split; [reflexivity |].
      assert (Hshift : forall k (b : Board),
                run_loop board_size board1 (turn_number + 1) (take k rest) None
                  = (Returns b, None) ->
                run_loop board_size board turn_number (take (Datatypes.S k) (turn :: rest)) None
                  = (Returns b, None)).
      { intros k b Hk. simpl. rewrite Hturn. exact Hk. }
      split.
      * intros [| k] action Hn.
        -- injection Hn as <-. exists board, turn.
           split; [reflexivity |]. split; [reflexivity |].
           rewrite Z.add_0_r, Hturn. reflexivity.
        -- destruct (Hall k action Hn) as (b & turn' & Hlook & Hrun & Hact).
           exists b, turn'. split; [exact Hlook |]. split; [apply Hshift; exact Hrun |].
           replace (turn_number + Z.of_nat (Datatypes.S k))
             with (turn_number + 1 + Z.of_nat k) by lia.
           exact Hact.
      * destruct out as [board' | e]; [simpl; congruence |].
        destruct Hout as (b & turn' & Hlook & Hrun & Hact).
        exists b, turn'. split; [exact Hlook |]. split; [apply Hshift; exact Hrun |].
        replace (turn_number + Z.of_nat (length (a :: l')))
          with (turn_number + 1 + Z.of_nat (length l')) by (simpl length; lia).
        exact Hact.
    + injection H as <- <-. exists []. rewrite app_nil_r.
      split; [reflexivity |]. split.
      * intros n action Hn. rewrite lookup_nil in Hn. discriminate.
      * exists board, turn. split; [reflexivity |]. split; [reflexivity |].
        simpl. rewrite Z.add_0_r, Hturn. reflexivity.
Qed.

Lemma run_loop_no_list board_size turns :
  forall (board : Board) turn_number out actionList',
    run_loop board_size board turn_number turns None = (out, actionList') ->
    actionList' = None.
Proof.
  induction turns as [| turn rest IH]; intros board turn_number out al' H; simpl in H.
  - congruence.
  - destruct (process_turn board_size board turn_number turn) as [[action | e] board'].
    + eapply IH. exact H.
    + congruence.
Qed.

(** X8.  The caller's action list only grows at its end, by the action of
    each turn in order: the entry appended for turn [n] is the action that
    [process_turn] returned for it, with turn number [n], on the board the
    turns before it left.  A run that returns has appended one action for
    every turn; a run that raises has appended the actions of exactly the
    turns before the one that raised, and that turn raised the exception of
    the run.  Without a list, none is made. *)
Theorem run_appends_one_action_per_turn
    (board_size : Z) (initial_ships : list Ship) (turns : list Turn)
    (out : Outcome Board) (actionList' : option (list Action)) :
  (forall l, run board_size initial_ships turns (Some l) = (out, actionList') ->
     exists l',
       actionList' = Some (l ++ l')
       /\ (forall n action,
             l' !! n = Some action ->
             exists (board_n : Board) turn,
               turns !! n = Some turn
               /\ run board_size initial_ships (take n turns) None
                  = (Returns board_n, None)
               /\ (process_turn board_size board_n (Z.of_nat n) turn).1
                  = Returns action)
       /\ match out with
          | Returns _ => length l' = length turns
          | Raises e =>
              exists (board_n : Board) turn,
                turns !! length l' = Some turn
                /\ run board_size initial_ships (take (length l') turns) None
                   = (Returns board_n, None)
                /\ (process_turn board_size board_n (Z.of_nat (length l')) turn).1
                   = Raises e
          end)
  /\ (run board_size initial_ships turns None = (out, actionList') ->
      actionList' = None).
Proof.
  unfold run. split.
  - intros l H. apply run_loop_actions in H. exact H.
  - apply run_loop_no_list.
Qed.

Lemma run_appends_one_action_per_turn_witness :
  exists l',
    Some [ShotNoTarget 9 9; MovedShip 5 5 N 5 6 N; SunkAliveShip 5 6]
    = Some ([ShotNoTarget 9 9] ++ l')
    /\ (forall n action,
          l' !! n = Some action ->
          exists (board_n : Board) turn,
            [MovementTurn 5 5 (py "M"); ShootingTurn 5 6; MovementTurn 5 6 (py "L")] !! n
              = Some turn
            /\ run 10 [mkShip 5 5 N true]
                 (take n [MovementTurn 5 5 (py "M"); ShootingTurn 5 6;
                          MovementTurn 5 6 (py "L")]) None
               = (Returns board_n, None)
            /\ (process_turn 10 board_n (Z.of_nat n) turn).1 = Returns action)
    /\ (exists (board_n : Board) turn,
          [MovementTurn 5 5 (py "M"); ShootingTurn 5 6; MovementTurn 5 6 (py "L")]
            !! length l' = Some turn
          /\ run 10 [mkShip 5 5 N true]
               (take (length l') [MovementTurn 5 5 (py "M"); ShootingTurn 5 6;
                                  MovementTurn 5 6 (py "L")]) None
             = (Returns board_n, None)
          /\ (process_turn 10 board_n (Z.of_nat (length l')) turn).1
             = Raises (MovingSunkShip 2 5 6)).
Proof.
  apply (proj1 (run_appends_one_action_per_turn 10 [mkShip 5 5 N true]
                  [MovementTurn 5 5 (py "M"); ShootingTurn 5 6; MovementTurn 5 6 (py "L")]
                  (Raises (MovingSunkShip 2 5 6))
                  (Some [ShotNoTarget 9 9; MovedShip 5 5 N 5 6 N; SunkAliveShip 5 6]))
               [ShotNoTarget 9 9]).
  vm_compute. reflexivity.
Defined.

Lemma run_loop_keeps board_size turns :
  forall (board board' : Board) turn_number actionList actionList',
    run_loop board_size board turn_number turns actionList
      = (Returns board', actionList') ->
    size board' = size board
    /\ (forall location h,
          board !! location = Some (h, false) -> board' !! location = Some (h, false)).
Proof.
  induction turns as [| turn rest IH]; intros board board' turn_number al al' H;
    simpl in H.
  - injection H as <- _. auto.
  - destruct (process_turn board_size board turn_number turn) as [[action | e] board1]
      eqn:Hturn; [| discriminate].
    apply IH in H as [Hsize Hdead]. split.
    + rewrite Hsize. eapply process_turn_size. exact Hturn.
    + intros location h Hl. apply Hdead.
      pose proof (sunk_ship_stays_any board_size board turn_number turn location h Hl) as Hs.
      rewrite Hturn in Hs. exact Hs.
Qed.

(** X9.  A run that returns neither loses nor adds a ship: the final board
    holds as many ships as the board built from the initial fleet, and
    every ship that was not alive at the start stands at its coordinate,
    with its heading and not alive, at the end. *)
Theorem run_keeps_the_fleet
    (board_size : Z) (initial_ships : list Ship) (turns : list Turn)
    (actionList actionList' : option (list Action)) (board' : Board) :
  run board_size initial_ships turns actionList = (Returns board', actionList') ->
  size board' = size (initial_board initial_ships)
  /\ (forall location h,
        initial_board initial_ships !! location = Some (h, false) ->
        board' !! location = Some (h, false)).
Proof. unfold run. apply run_loop_keeps. Qed.

Lemma run_keeps_the_fleet_witness :
  size ({[ (3, 5) := (E, true); (4, 5) := (E, false) ]} : Board)
  = size (initial_board [mkShip 2 2 N true; mkShip 4 5 E false])
  /\ (forall location h,
        initial_board [mkShip 2 2 N true; mkShip 4 5 E false] !! location
          = Some (h, false) ->
        ({[ (3, 5) := (E, true); (4, 5) := (E, false) ]} : Board) !! location
          = Some (h, false)).
Proof.
  apply (run_keeps_the_fleet 8 [mkShip 2 2 N true; mkShip 4 5 E false]
           [MovementTurn 2 2 (py "MMMRM"); ShootingTurn 4 5] None None).
  vm_compute. reflexivity.
Defined.

Lemma returned_move_shape
    (board_size : Z) (board board' : Board) (turn_number x y : Z)
    (actions : list ascii) (action : Action) :
  process_move board_size board turn_number x y actions = (Returns action, board') ->
  exists (h : Heading) (target : Location) (fh : Heading),
    in_bounds board_size target
    /\ board' = <[target := (fh, true)]> (delete (x, y) board).
Proof.
  unfold process_move. intros Hrun.
  destruct (board !! (x, y)) as [[h [|]] |]; simpl in Hrun; try discriminate.
  destruct (move_loop actions (x, y) h) as [[target dir] | e]; [| discriminate].
  destruct (_ || _) eqn:Hb; [discriminate |].
  destruct (delete (x, y) board !! target); [discriminate |].
  injection Hrun as _ <-. exists h, target, dir.
  split; [apply out_of_bounds_false; exact Hb | reflexivity].
Qed.

Lemma process_turn_board_ok
    (board_size : Z) (board board' : Board) (turn_number : Z) (turn : Turn)
    (action : Action) :
  board_ok board_size board ->
  process_turn board_size board turn_number turn = (Returns action, board') ->
  board_ok board_size board'.
Proof.
  intros Hok Hrun. destruct turn as [x y actions | x y |]; simpl in Hrun;
    [| | discriminate].
  - destruct (returned_move_shape board_size board board' turn_number x y actions action Hrun)
      as (h & target & fh & Hin & ->).
    apply board_ok_insert; [apply board_ok_delete; exact Hok | exact Hin].
  - unfold process_shoot in Hrun.
    destruct (board !! (x, y)) as [[h a] |] eqn:Hship.
    + assert (board' = <[(x, y) := (h, false)]> board) as ->
        by (destruct a; simpl in Hrun; congruence).
      apply board_ok_insert; [exact Hok |].
      destruct Hok as [Hkeys _]. eapply Hkeys. exact Hship.
    + injection Hrun as _ <-. exact Hok.
Qed.

Lemma initial_board_ok board_size ships :
  Forall (fun ship => in_bounds board_size (ship_x ship, ship_y ship)) ships ->
  board_ok board_size (initial_board ships).
Proof.
  unfold initial_board.
  assert (Hempty : board_ok board_size (∅ : Board)).
  { split; [| apply NoDup_fst_map_to_list]. intros k v. rewrite lookup_empty. discriminate. }
  revert Hempty. generalize (∅ : Board).
  induction ships as [| ship rest IH]; intros board Hok Hall; [exact Hok |].
  inversion Hall as [| ? ? Hship Hrest]; subst. simpl.
  apply IH; [| exact Hrest]. apply board_ok_insert; assumption.
Qed.

Lemma run_loop_board_ok board_size turns :
  forall (board board' : Board) turn_number actionList actionList',
    board_ok board_size board ->
    run_loop board_size board turn_number turns actionList
      = (Returns board', actionList') ->
    board_ok board_size board'.
Proof.
  induction turns as [| turn rest IH]; intros board board' turn_number al al' Hok H;
    simpl in H.
  - injection H as <- _. exact Hok.
  - destruct (process_turn board_size board turn_number turn) as [[action | e] board1]
      eqn:Hturn; [| discriminate].
    eapply IH; [| exact H]. eapply process_turn_board_ok; eauto.
Qed.

(** X10.  When every ship of the initial fleet stands on the board, the
    board a run returns has every ship on the board, whatever the turns
    were: a run cannot end with a ship outside the bounds. *)
Theorem run_keeps_ships_on_board
    (board_size : Z) (initial_ships : list Ship) (turns : list Turn)
    (actionList actionList' : option (list Action)) (board' : Board) :
  Forall (fun ship => in_bounds board_size (ship_x ship, ship_y ship)) initial_ships ->
  run board_size initial_ships turns actionList = (Returns board', actionList') ->
  board_ok board_size board'.
Proof.
  intros Hall Hrun. unfold run in Hrun.
  eapply run_loop_board_ok; [apply initial_board_ok; exact Hall | exact Hrun].
Qed.

Lemma run_keeps_ships_on_board_witness :
  board_ok 8 ({[ (3, 5) := (E, true); (4, 5) := (E, false) ]} : Board).
Proof.
  apply (run_keeps_ships_on_board 8 [mkShip 2 2 N true; mkShip 4 5 E false]
           [MovementTurn 2 2 (py "MMMRM"); ShootingTurn 4 5] None None).
  - repeat constructor; simpl; lia.
  - vm_compute. reflexivity.
Defined.

(** ** Stripping *)

Lemma lstrip_spaces w s : forallb is_space w = true -> lstrip (w ++ s) = lstrip s.
Proof.
  induction w as [| c w IH]; intros Hw; [reflexivity |].
  simpl in Hw. apply andb_true_iff in Hw as [Hc Hw]. simpl. rewrite Hc. auto.
Qed.

Lemma lstrip_stops s : stops is_space s = true -> lstrip s = s.
Proof.
  destruct s as [| c s]; [reflexivity |]. simpl. intros Hc.
  apply negb_true_iff in Hc. rewrite Hc. reflexivity.
Qed.

Lemma stops_lstrip s : stops is_space (lstrip s) = true.
Proof.
  induction s as [| c s IH]; [reflexivity |]. simpl.
  destruct (is_space c) eqn:Hc; [exact IH |]. simpl. rewrite Hc. reflexivity.
Qed.

Lemma lstrip_snoc u c : is_space c = false -> lstrip (u ++ [c]) = lstrip u ++ [c].
Proof.
  intros Hc. induction u as [| x u IH]; simpl; [rewrite Hc; reflexivity |].
  destruct (is_space x); [exact IH | reflexivity].
Qed.

Lemma rstrip_cons c t : is_space c = false -> rstrip (c :: t) = c :: rstrip t.
Proof.
  intros Hc. unfold rstrip. simpl rev. rewrite (lstrip_snoc (rev t) c Hc).
  rewrite rev_app_distr. reflexivity.
Qed.

Lemma stops_strip s :
  stops is_space (strip s) = true /\ stops is_space (rev (strip s)) = true.
Proof.
  unfold strip. split.
  - pose proof (stops_lstrip s) as Ht. destruct (lstrip s) as [| c t]; [reflexivity |].
    simpl in Ht. apply negb_true_iff in Ht. rewrite (rstrip_cons c t Ht). simpl.
    rewrite Ht. reflexivity.
  - unfold rstrip. rewrite rev_involutive. apply stops_lstrip.
Qed.

Lemma forallb_rev_true (p : ascii -> bool) l :
  forallb p l = true -> forallb p (rev l) = true.
Proof.
  rewrite !forallb_forall. intros H c Hc. apply H. apply in_rev. exact Hc.
Qed.

Lemma strip_core lead core trail :
  forallb is_space lead = true -> forallb is_space trail = true ->
  stops is_space core = true -> stops is_space (rev core) = true ->
  strip (lead ++ core ++ trail) = core.
Proof.
  intros Hlead Htrail Hc Hrc. unfold strip. rewrite (lstrip_spaces lead _ Hlead).
  destruct core as [| c core].
  - simpl. rewrite <- (app_nil_r trail), (lstrip_spaces trail [] Htrail). reflexivity.
  - rewrite (lstrip_stops ((c :: core) ++ trail) Hc). unfold rstrip.
    rewrite rev_app_distr.
    rewrite lstrip_spaces by (apply forallb_rev_true; exact Htrail).
    rewrite (lstrip_stops _ Hrc). apply rev_involutive.
Qed.

Lemma strip_idempotent s : strip (strip s) = strip s.
Proof.
  destruct (stops_strip s) as [H1 H2].
  pose proof (strip_core [] (strip s) [] eq_refl eq_refl H1 H2) as H.
  rewrite app_nil_r in H. exact H.
Qed.

(** X11.  The parser does not see blanks around a line: a line with
    whitespace before and after a text that neither starts nor ends with
    whitespace parses as that text does.  So the strip that [turns] applies
    before calling the parser, which strips again, changes nothing. *)
Theorem parser_ignores_surrounding_whitespace :
  (forall lead core trail,
      forallb is_space lead = true -> forallb is_space trail = true ->
      stops is_space core = true -> stops is_space (rev core) = true ->
      make_turn_from_line (lead ++ core ++ trail) = make_turn_from_line core)
  /\ (forall lines, turns lines = map make_turn_from_line lines).
Proof.
  split.
  - intros lead core trail Hlead Htrail Hc Hrc. unfold make_turn_from_line.
    rewrite (strip_core lead core trail Hlead Htrail Hc Hrc).
    pose proof (strip_core [] core [] eq_refl eq_refl Hc Hrc) as H.
    rewrite app_nil_r in H. simpl in H. rewrite H. reflexivity.
  - intros lines. unfold turns. apply map_ext. intros line.
    unfold make_turn_from_line. rewrite strip_idempotent. reflexivity.
Qed.

Lemma parser_ignores_surrounding_whitespace_witness :
  make_turn_from_line (py "  " ++ py "(1 ,2) LM" ++ py " ")
  = make_turn_from_line (py "(1 ,2) LM").
Proof.
  apply (proj1 parser_ignores_surrounding_whitespace); reflexivity.
Defined.

(** ** The run over the lines of a file *)

Lemma run_source_loop_parsed board_size src : forall ts (board : Board) turn_number more actionList,
  Forall2 (fun (o : Outcome Turn) turn => o = Returns turn) src ts ->
  run_source_loop board_size board turn_number (src ++ more) actionList
  = match run_loop board_size board turn_number ts actionList with
    | (Returns board', actionList') =>
        run_source_loop board_size board' (turn_number + Z.of_nat (length ts))
                        more actionList'
    | (Raises e, actionList') => (Raises e, actionList')
    end.
Proof.
  induction src as [| o src IH]; intros ts board turn_number more al Hall;
    inversion Hall as [| ? turn ? ts' Ho Hrest]; subst.
  - simpl. rewrite Z.add_0_r. reflexivity.
  - simpl app. simpl run_source_loop. simpl run_loop.
    destruct (process_turn board_size board turn_number turn) as [[action | e] board'];
      [| reflexivity].
    rewrite (IH ts' board' (turn_number + 1) more _ Hrest).
    replace (turn_number + 1 + Z.of_nat (length ts'))
      with (turn_number + Z.of_nat (length (turn :: ts'))) by (simpl length; lia).
    reflexivity.
Qed.

Lemma turns_parsed lines ts :
  Forall2 (fun line turn => make_turn_from_line line = Returns turn) lines ts ->
  Forall2 (fun (o : Outcome Turn) turn => o = Returns turn) (turns lines) ts.
Proof.
  intros H. induction H as [| line turn lines ts Hline Hrest IH]; [constructor |].
  unfold turns. simpl. constructor; [| exact IH].
  unfold make_turn_from_line in *. rewrite strip_idempotent. exact Hline.
Qed.

(** X12.  Running over the lines of a file: while the lines parse, the run
    is the run over the turns they parse to; at the first line in which the
    turn pattern finds nothing, after the turns before it have been applied
    and recorded, the run ends with the [AttributeError] of the parser, unless
    one of those earlier turns has already raised; the lines after it are
    never read. *)
Theorem run_over_lines
    (board_size : Z) (initial_ships : list Ship) (lines : list (list ascii))
    (ts : list Turn) (actionList : option (list Action)) :
  Forall2 (fun line turn => make_turn_from_line line = Returns turn) lines ts ->
  run_source_loop board_size (initial_board initial_ships) 0 (turns lines) actionList
    = run board_size initial_ships ts actionList
  /\ (forall bad more,
        ~ has_match TURN_REGEX (strip bad) ->
        run_source_loop board_size (initial_board initial_ships) 0
                        (turns (lines ++ bad :: more)) actionList
        = match run board_size initial_ships ts actionList with
          | (Returns _, actionList') => (Raises AttributeError, actionList')
          | (Raises e, actionList') => (Raises e, actionList')
          end).
Proof.
  intros Hall. apply turns_parsed in Hall. unfold run. split.
  - rewrite <- (app_nil_r (turns lines)).
    rewrite (run_source_loop_parsed _ _ ts _ 0 [] actionList Hall).
    destruct (run_loop board_size (initial_board initial_ships) 0 ts actionList)
      as [[board' | e] al']; reflexivity.
  - intros bad more Hbad. unfold turns in *. rewrite map_app.
    rewrite (run_source_loop_parsed _ _ ts _ 0 _ actionList Hall).
    destruct (run_loop board_size (initial_board initial_ships) 0 ts actionList)
      as [[board' | e] al']; [| reflexivity].
    simpl map. unfold make_turn_from_line at 1. rewrite strip_idempotent.
    apply search_None_iff in Hbad. rewrite Hbad. reflexivity.
Qed.

Lemma run_over_lines_witness :
  run_source_loop 10 (initial_board [mkShip 5 5 N true]) 0
    (turns ([py "(5,5) M"; py " (5, 6)"] ++ py "5,6" :: [py "(5,6)L"])) (Some [])
  = (Raises AttributeError, Some [MovedShip 5 5 N 5 6 N; SunkAliveShip 5 6]).
Proof.
  destruct (run_over_lines 10 [mkShip 5 5 N true] [py "(5,5) M"; py " (5, 6)"]
              [MovementTurn 5 5 (py "M"); ShootingTurn 5 6] (Some [])) as [_ Hbad].
  - repeat constructor.
  - rewrite (Hbad (py "5,6") [py "(5,6)L"]); [vm_compute; reflexivity |].
    apply search_None_iff. vm_compute. reflexivity.
Defined.

(** ** Text around a command *)

Lemma search_skip (g : option string) (c : ascii) (r : regex) pre s :
  forallb (fun x => negb (Ascii.eqb x c)) pre = true ->
  search ((g, Chr c) :: r) (pre ++ s) = search ((g, Chr c) :: r) s.
Proof.
  induction pre as [| x pre IH]; intros Hpre; [reflexivity |].
  simpl in Hpre. apply andb_true_iff in Hpre as [Hx Hpre].
  apply negb_true_iff in Hx. simpl app.
  change (search ((g, Chr c) :: r) (x :: pre ++ s))
    with (match match_here ((g, Chr c) :: r) (x :: pre ++ s) with
          | Some m => Some m
          | None => search ((g, Chr c) :: r) (pre ++ s)
          end).
  simpl match_here. rewrite Hx. apply IH. exact Hpre.
Qed.

(** X13.  A command embedded in other text: when the stripped line is some
    text without an opening parenthesis, then [( X , Y )] with coordinates
    of at most [int_max_str_digits] digits, optional blanks and the longest
    run of action letters, then anything else, the parser returns the turn
    of that command and ignores the text on both sides. *)
Theorem parser_reads_embedded_command
    (line pre ws1 xs ws2 ws3 ys ws4 ws5 actions rest : list ascii) :
  forallb (fun c => negb (Ascii.eqb c "(")) pre = true ->
  forallb is_space ws1 = true -> forallb is_space ws2 = true ->
  forallb is_space ws3 = true -> forallb is_space ws4 = true ->
  forallb is_space ws5 = true ->
  xs <> [] -> forallb is_digit xs = true ->
  ys <> [] -> forallb is_digit ys = true ->
  (length xs <= int_max_str_digits)%nat ->
  (length ys <= int_max_str_digits)%nat ->
  forallb is_LRM actions = true ->
  stops is_LRM rest = true ->
  stops is_space (actions ++ rest) = true ->
  strip line = pre ++ "("%char :: ws1 ++ xs ++ ws2 ++ ","%char :: ws3 ++ ys ++ ws4
                   ++ ")"%char :: ws5 ++ actions ++ rest ->
  make_turn_from_line line
  = Returns (match actions with
             | [] => ShootingTurn (digits_value xs) (digits_value ys)
             | _ :: _ => MovementTurn (digits_value xs) (digits_value ys) actions
             end).
Proof.
  intros Hpre H1 H2 H3 H4 H5 Hx0 Hx Hy0 Hy Hxl Hyl Ha Hrest Hsp Hline.
  pose proof (turn_regex_match ws1 xs ws2 ws3 ys ws4 ws5 actions rest
                H1 Hx0 Hx H2 H3 Hy0 Hy H4 H5 Ha Hsp Hrest) as Hm.
  apply search_here in Hm. unfold TURN_REGEX in Hm at 1.
  rewrite <- (search_skip None "(" _ pre _ Hpre) in Hm.
  fold TURN_REGEX in Hm. rewrite <- Hline in Hm.
  apply (make_turn_of_match line xs ys actions rest Hm Hx0 Hx Hy0 Hy Hxl Hyl).
Qed.

Lemma parser_reads_embedded_command_witness :
  make_turn_from_line (py "turn 7: ( 3 ,4 ) LMQ??")
  = Returns (MovementTurn 3 4 (py "LM")).
Proof.
  apply (parser_reads_embedded_command (py "turn 7: ( 3 ,4 ) LMQ??") (py "turn 7: ")
           (py " ") (py "3") (py " ") [] (py "4") (py " ") (py " ") (py "LM") (py "Q??"));
    first [reflexivity | discriminate | (unfold int_max_str_digits; simpl; lia)].
Defined.

(** ** The fleet line *)

Example fleet_line_example :
  initial_ships_of_line (py " (1, 3, N) x (9,2,E)(4 , 5,Q) ( 7 ,8 , W ) ")
  = Some [mkShip 1 3 N true; mkShip 9 2 E true; mkShip 7 8 W true].
Proof. vm_compute. reflexivity. Qed.

Lemma pmatch_here_sound r : forall s m,
  pmatch_here r s = Some m ->
  exists ws, items_match r ws /\ s = concat ws ++ m.2 /\ m.1 = pgroups_of r ws.
Proof.
  induction r as [| [g it] r IH]; intros s m H; simpl in H.
  - injection H as <-. exists []. repeat split. constructor.
  - destruct it as [[c | p | p] | p].
    + destruct s as [| x s]; [discriminate |].
      destruct (Ascii.eqb x c) eqn:Hx; [| discriminate].
      apply Ascii.eqb_eq in Hx as ->.
      apply fmap_Some in H as ([gs rest] & Hm & ->).
      destruct (IH s _ Hm) as (ws & Hws & -> & Hg). simpl in Hg. subst gs.
      exists ([c] :: ws). rewrite bind_group_pair.
      split; [constructor; [reflexivity | exact Hws] |]. split; reflexivity.
    + apply fmap_Some in H as ([w [gs rest]] & Hgr & ->).
      apply greedy_sound in Hgr as (s' & -> & Hw & Hm).
      destruct (IH s' _ Hm) as (ws & Hws & -> & Hg). simpl in Hg. subst gs.
      exists (w :: ws). cbn [fst snd]. rewrite bind_group_pair.
      split; [constructor; [exact Hw | exact Hws] |].
      split; [simpl; rewrite <- app_assoc; reflexivity | reflexivity].
    + destruct s as [| x s]; [discriminate |].
      destruct (p x) eqn:Hx; [| discriminate].
      apply fmap_Some in H as ([w [gs rest]] & Hgr & ->).
      apply greedy_sound in Hgr as (s' & -> & Hw & Hm).
      destruct (IH s' _ Hm) as (ws & Hws & -> & Hg). simpl in Hg. subst gs.
      exists ((x :: w) :: ws). cbn [fst snd]. rewrite bind_group_pair.
      split; [constructor; [| exact Hws] |].
      * simpl. rewrite Hx, Hw. split; [discriminate | reflexivity].
      * split; [simpl; rewrite <- app_assoc; reflexivity | reflexivity].
    + destruct s as [| x s]; [discriminate |].
      destruct (p x) eqn:Hx; [| discriminate].
      apply fmap_Some in H as ([gs rest] & Hm & ->).
      destruct (IH s _ Hm) as (ws & Hws & -> & Hg). simpl in Hg. subst gs.
      exists ([x] :: ws). rewrite bind_group_pair.
      split; [constructor; [exists x; auto | exact Hws] |]. split; reflexivity.
Qed.

Lemma psearch_found r : forall s m,
  psearch r s = Some m -> exists pre s', s = pre ++ s' /\ pmatch_here r s' = Some m.
Proof.
  induction s as [| c s IH]; intros m H; simpl in H.
  - destruct (pmatch_here r []) eqn:Hm; [| discriminate].
    exists [], []. split; [reflexivity | congruence].
  - destruct (pmatch_here r (c :: s)) eqn:Hm.
    + exists [], (c :: s). split; [reflexivity | congruence].
    + destruct (IH m H) as (pre & s' & -> & Hs'). exists (c :: pre), s'. auto.
Qed.

Lemma psearch_here r s m : pmatch_here r s = Some m -> psearch r s = Some m.
Proof. intros H. destruct s; simpl; rewrite H; reflexivity. Qed.

Lemma psearch_skip (g : option string) (c : ascii) (r : pattern) pre s :
  forallb (fun x => negb (Ascii.eqb x c)) pre = true ->
  psearch ((g, Atom (Chr c)) :: r) (pre ++ s) = psearch ((g, Atom (Chr c)) :: r) s.
Proof.
  induction pre as [| x pre IH]; intros Hpre; [reflexivity |].
  simpl in Hpre. apply andb_true_iff in Hpre as [Hx Hpre].
  apply negb_true_iff in Hx. simpl app.
  change (psearch ((g, Atom (Chr c)) :: r) (x :: pre ++ s))
    with (match pmatch_here ((g, Atom (Chr c)) :: r) (x :: pre ++ s) with
          | Some m => Some m
          | None => psearch ((g, Atom (Chr c)) :: r) (pre ++ s)
          end).
  simpl pmatch_here. rewrite Hx. apply IH. exact Hpre.
Qed.

(** A match of a pattern that starts with a literal takes at least that
    character, so the text after the match is shorter. *)
Lemma psearch_shorter (g : option string) (c : ascii) (r : pattern) s m :
  psearch ((g, Atom (Chr c)) :: r) s = Some m -> (length m.2 < length s)%nat.
Proof.
  intros H. apply psearch_found in H as (pre & s' & -> & Hm).
  apply pmatch_here_sound in Hm as (ws & Hws & -> & _).
  inversion Hws as [| ? w ? ws' Hw Hws']; subst. simpl in Hw. subst w.
  rewrite length_app. simpl. rewrite length_app. lia.
Qed.

Lemma finditer_fuel_enough (g : option string) (c : ascii) (r : pattern) :
  forall n m s, (length s < n)%nat -> (length s < m)%nat ->
  finditer_fuel n ((g, Atom (Chr c)) :: r) s = finditer_fuel m ((g, Atom (Chr c)) :: r) s.
Proof.
  induction n as [| n IH]; intros m s Hn Hm; [lia |].
  destruct m as [| m]; [lia |]. simpl.
  destruct (psearch ((g, Atom (Chr c)) :: r) s) as [[gs rest] |] eqn:Hs; [| reflexivity].
  apply psearch_shorter in Hs. simpl in Hs. f_equal. apply IH; lia.
Qed.

(** [finditer] unfolded once, free of fuel. *)
Lemma finditer_unfold (g : option string) (c : ascii) (r : pattern) s :
  finditer ((g, Atom (Chr c)) :: r) s
  = match psearch ((g, Atom (Chr c)) :: r) s with
    | None => []
    | Some (gs, rest) => gs :: finditer ((g, Atom (Chr c)) :: r) rest
    end.
Proof.
  unfold finditer at 1. simpl.
  destruct (psearch ((g, Atom (Chr c)) :: r) s) as [[gs rest] |] eqn:Hs; [| reflexivity].
  apply psearch_shorter in Hs. simpl in Hs. f_equal.
  unfold finditer. apply finditer_fuel_enough; lia.
Qed.

Lemma NESW_heading c : is_NESW c = true -> exists h, c = heading_char h.
Proof.
  unfold is_NESW. intros H.
  destruct (Ascii.eqb_spec c "N"); [exists N; assumption |].
  destruct (Ascii.eqb_spec c "E"); [exists E; assumption |].
  destruct (Ascii.eqb_spec c "S"); [exists S; assumption |].
  destruct (Ascii.eqb_spec c "W"); [exists W; assumption |].
  discriminate.
Qed.

Lemma heading_of_char h : heading_of [heading_char h] = Some h.
Proof. destruct h; reflexivity. Qed.

(** What any match of the fleet pattern captures. *)
Lemma grid_match_entry s m :
  pmatch_here GRID_REGEX s = Some m ->
  exists e, m.1 = entry_groups e /\ entry_digits e.
Proof.
  intros H. apply pmatch_here_sound in H as (ws & Hws & _ & Hg).
  unfold items_match, GRID_REGEX in Hws.
  repeat match goal with
         | H : Forall2 _ (_ :: _) _ |- _ => inversion H; clear H; subst
         | H : Forall2 _ [] _ |- _ => inversion H; clear H; subst
         end.
  simpl in *.
  repeat match goal with
         | H : _ /\ _ |- _ => destruct H
         | H : exists _, _ |- _ => destruct H
         end.
  subst.
  match goal with
  | Hd : is_NESW ?c = true |- _ => destruct (NESW_heading c Hd) as [h ->]
  end.
  match type of Hg with
  | _ = [(_, ?xs); (_, ?ys); _] => exists (xs, ys, h)
  end.
  split; [exact Hg |]. unfold entry_digits. simpl. auto.
Qed.

Lemma ship_of_entry e :
  entry_digits e ->
  ship_of_match (entry_groups e)
  = if entry_readable e then Some (entry_ship e) else None.
Proof.
  destruct e as [[xs ys] h]. unfold entry_digits, entry_readable, entry_ship.
  simpl. intros (Hx0 & Hx & Hy0 & Hy). unfold ship_of_match, entry_groups.
  cbn [group dict_get String.eqb Ascii.eqb Bool.eqb fst snd].
  rewrite heading_of_char.
  destruct (Nat.leb_spec (length xs) int_max_str_digits) as [Hxl | Hxl].
  - rewrite (int_digits xs Hx0 Hx Hxl).
    destruct (Nat.leb_spec (length ys) int_max_str_digits) as [Hyl | Hyl].
    + rewrite (int_digits ys Hy0 Hy Hyl). reflexivity.
    + rewrite (int_too_long ys Hy0 Hy Hyl). reflexivity.
  - rewrite (int_too_long xs Hx0 Hx Hxl). reflexivity.
Qed.

Lemma ships_of_entries entries :
  Forall entry_digits entries ->
  ships_of_matches (map entry_groups entries)
  = if forallb entry_readable entries then Some (map entry_ship entries) else None.
Proof.
  induction 1 as [| e entries He Hall IH]; [reflexivity |].
  simpl. rewrite (ship_of_entry e He), IH.
  destruct (entry_readable e); [| reflexivity].
  destruct (forallb entry_readable entries); reflexivity.
Qed.

Lemma group_of_text_later pre w s gs :
  group_of_text s gs -> group_of_text (pre ++ w ++ s) gs.
Proof.
  intros (pre' & ws & post & -> & Hws & Hg).
  exists (pre ++ w ++ pre'), ws, post. rewrite <- !app_assoc. auto.
Qed.

Lemma finditer_entries n : forall s,
  exists entries,
    finditer_fuel n GRID_REGEX s = map entry_groups entries
    /\ Forall entry_digits entries
    /\ Forall (group_of_text s) (map entry_groups entries).
Proof.
  induction n as [| n IH]; intros s; simpl; [exists []; auto |].
  destruct (psearch GRID_REGEX s) as [[gs rest] |] eqn:Hs; [| exists []; auto].
  apply psearch_found in Hs as (pre & s' & -> & Hm).
  destruct (grid_match_entry _ _ Hm) as (e & Hg & He). simpl in Hg. subst gs.
  apply pmatch_here_sound in Hm as (ws & Hws & -> & Hgs). simpl in Hgs.
  destruct (IH rest) as (entries & -> & Hall & Htext).
  exists (e :: entries). split; [reflexivity |]. split; [constructor; assumption |].
  simpl map. constructor.
  - exists pre, ws, rest. auto.
  - eapply Forall_impl; [exact Htext |].
    intros gs Hgs'. simpl. apply group_of_text_later. exact Hgs'.
Qed.

(** X14.  Reading the fleet line: the groups read are the matches that
    [finditer] finds in the stripped line, each the captures of a substring
    of the line in the language of the fleet pattern, and all other text is
    skipped without a complaint.  When every digit run of every match has at
    most [int_max_str_digits] digits the reader returns exactly one ship per
    match, in order, alive, with the values of the runs as coordinates and
    the heading of the direction letter; otherwise [int] raises its
    [ValueError], and no fleet is read. *)
Theorem fleet_line_read_outcome (line : list ascii) :
  exists entries : list fleet_entry,
    finditer GRID_REGEX (strip line) = map entry_groups entries
    /\ Forall entry_digits entries
    /\ Forall (group_of_text (strip line)) (map entry_groups entries)
    /\ initial_ships_of_line line
       = if forallb entry_readable entries then Some (map entry_ship entries)
         else None.
Proof.
  unfold initial_ships_of_line, finditer.
  destruct (finditer_entries (Datatypes.S (length (strip line))) (strip line))
    as (entries & Hfind & Hall & Htext).
  exists entries. rewrite Hfind.
  split; [reflexivity |]. split; [exact Hall |]. split; [exact Htext |].
  apply ships_of_entries. exact Hall.
Qed.

Lemma pmatch_chr g c r s gs rest :
  pmatch_here r s = Some (gs, rest) ->
  pmatch_here ((g, Atom (Chr c)) :: r) (c :: s) = Some (add_group g [c] gs, rest).
Proof.
  intros H. simpl. rewrite Ascii.eqb_refl, H. simpl.
  rewrite bind_group_pair. reflexivity.
Qed.

Lemma pmatch_one g p c r s gs rest :
  p c = true ->
  pmatch_here r s = Some (gs, rest) ->
  pmatch_here ((g, OneOf p) :: r) (c :: s) = Some (add_group g [c] gs, rest).
Proof.
  intros Hc H. simpl. rewrite Hc, H. simpl. rewrite bind_group_pair. reflexivity.
Qed.

Lemma pmatch_star g p r w s gs rest :
  forallb p w = true -> stops p s = true ->
  pmatch_here r s = Some (gs, rest) ->
  pmatch_here ((g, Atom (Star p)) :: r) (w ++ s) = Some (add_group g w gs, rest).
Proof.
  intros Hw Hs H. simpl.
  rewrite (greedy_maximal p (pmatch_here r) s (gs, rest) w Hw Hs H). simpl.
  rewrite bind_group_pair. reflexivity.
Qed.

Lemma pmatch_plus g p r w s gs rest :
  w <> [] -> forallb p w = true -> stops p s = true ->
  pmatch_here r s = Some (gs, rest) ->
  pmatch_here ((g, Atom (Plus p)) :: r) (w ++ s) = Some (add_group g w gs, rest).
Proof.
  intros Hne Hw Hs H. destruct w as [| x w]; [congruence |].
  simpl in Hw. apply andb_true_iff in Hw as [Hx Hw]. simpl. rewrite Hx.
  rewrite (greedy_maximal p (pmatch_here r) s (gs, rest) w Hw Hs H). simpl.
  rewrite bind_group_pair. reflexivity.
Qed.

Lemma heading_char_NESW h : is_NESW (heading_char h) = true.
Proof. destruct h; reflexivity. Qed.

Lemma heading_char_not_space h : is_space (heading_char h) = false.
Proof. destruct h; reflexivity. Qed.

(** The match of the fleet pattern at the start of a group [( X , Y , D )]. *)
Lemma grid_regex_match ws1 xs ws2 ws3 ys ws4 ws5 h ws6 rest :
  forallb is_space ws1 = true -> forallb is_space ws2 = true ->
  forallb is_space ws3 = true -> forallb is_space ws4 = true ->
  forallb is_space ws5 = true -> forallb is_space ws6 = true ->
  xs <> [] -> forallb is_digit xs = true ->
  ys <> [] -> forallb is_digit ys = true ->
  pmatch_here GRID_REGEX
    ("("%char :: ws1 ++ xs ++ ws2 ++ ","%char :: ws3 ++ ys ++ ws4
       ++ ","%char :: ws5 ++ heading_char h :: ws6 ++ ")"%char :: rest)
  = Some ([("x_coord"%string, xs); ("y_coord"%string, ys);
           ("direction"%string, [heading_char h])], rest).
Proof.
  intros H1 H2 H3 H4 H5 H6 Hx0 Hx Hy0 Hy. unfold GRID_REGEX.
  apply (pmatch_chr None).
  apply (pmatch_star None); [exact H1 | |].
  { eapply stops_nonempty; eauto using digit_not_space. }
  apply (pmatch_plus (Some "x_coord"%string)); [exact Hx0 | exact Hx | |].
  { eapply stops_run; eauto using space_not_digit. }
  apply (pmatch_star None); [exact H2 | reflexivity |].
  apply (pmatch_chr None).
  apply (pmatch_star None); [exact H3 | |].
  { eapply stops_nonempty; eauto using digit_not_space. }
  apply (pmatch_plus (Some "y_coord"%string)); [exact Hy0 | exact Hy | |].
  { eapply stops_run; eauto using space_not_digit. }
  apply (pmatch_star None); [exact H4 | reflexivity |].
  apply (pmatch_chr None).
  apply (pmatch_star None); [exact H5 | |].
  { simpl. rewrite heading_char_not_space. reflexivity. }
  apply (pmatch_one (Some "direction"%string)); [apply heading_char_NESW |].
  apply (pmatch_star None); [exact H6 | reflexivity |].
  apply (pmatch_chr None). reflexivity.
Qed.

Lemma finditer_grid s :
  finditer GRID_REGEX s
  = match psearch GRID_REGEX s with
    | None => []
    | Some (gs, rest) => gs :: finditer GRID_REGEX rest
    end.
Proof. unfold GRID_REGEX. apply finditer_unfold. Qed.

Lemma psearch_grid_skip sep s :
  forallb (fun c => negb (Ascii.eqb c "(")) sep = true ->
  psearch GRID_REGEX (sep ++ s) = psearch GRID_REGEX s.
Proof. unfold GRID_REGEX. apply psearch_skip. Qed.

Lemma fleet_text_ships text ships :
  fleet_text text ships -> ships_of_matches (finditer GRID_REGEX text) = Some ships.
Proof.
  intros H.
  induction H as [sep Hsep
                 | sep ws1 xs ws2 ws3 ys ws4 ws5 h ws6 text ships
                     Hsep H1 H2 H3 H4 H5 H6 Hx0 Hx Hy0 Hy Hxl Hyl Htext IH].
  - rewrite finditer_grid. rewrite <- (app_nil_r sep).
    rewrite (psearch_grid_skip sep [] Hsep). reflexivity.
  - rewrite finditer_grid, (psearch_grid_skip sep _ Hsep).
    rewrite (psearch_here _ _ _
               (grid_regex_match ws1 xs ws2 ws3 ys ws4 ws5 h ws6 text
                  H1 H2 H3 H4 H5 H6 Hx0 Hx Hy0 Hy)).
    simpl ships_of_matches. rewrite IH. unfold ship_of_match.
    cbn [group dict_get String.eqb Ascii.eqb Bool.eqb].
    rewrite (int_digits xs Hx0 Hx Hxl), (int_digits ys Hy0 Hy Hyl), heading_of_char.
    reflexivity.
Qed.

(** X15.  A fleet line in the input format, groups [( X , Y , D )] with
    optional blanks inside, coordinates of at most [int_max_str_digits]
    digits and any text free of opening parentheses around the groups, reads
    as exactly the ships it lists, in the order of the line and all alive; a
    coordinate listed twice gives two ships. *)
Theorem fleet_line_reads_listed_ships (line : list ascii) (ships : list Ship) :
  fleet_text (strip line) ships -> initial_ships_of_line line = Some ships.
Proof. unfold initial_ships_of_line. apply fleet_text_ships. Qed.

Lemma fleet_line_reads_listed_ships_witness :
  initial_ships_of_line (py " (1, 3, N) (9,2,E)  ")
  = Some [mkShip 1 3 N true; mkShip 9 2 E true].
Proof.
  apply (fleet_line_reads_listed_ships (py " (1, 3, N) (9,2,E)  ")).
  refine (fleet_text_group [] [] (py "1") [] (py " ") (py "3") [] (py " ") N [] _ _
            _ _ _ _ _ _ _ _ _ _ _ _ _ _);
    try reflexivity; try discriminate; try (unfold int_max_str_digits; simpl; lia).
  refine (fleet_text_group (py " ") [] (py "9") [] [] (py "2") [] [] E [] _ _
            _ _ _ _ _ _ _ _ _ _ _ _ _ _);
    try reflexivity; try discriminate; try (unfold int_max_str_digits; simpl; lia).
  apply fleet_text_end. reflexivity.
Defined.

(** ** Printing *)

Example test_sample_output :
  main_output {[ (9, 2) := (E, false); (1, 3) := (N, true); (10, 0) := (S, true) ]}
  = [py "(1, 3, N)"; py "(9, 2, E) SUNK"; py "(10, 0, S)"].
Proof. vm_compute. reflexivity. Qed.

Ltac tuple_order :=
  unfold tuple_le, tuple_leb;
  repeat match goal with
         | |- context [?a <? ?b] => destruct (Z.ltb_spec a b)
         | H : context [?a <? ?b] |- _ => destruct (Z.ltb_spec a b)
         end;
  try lia; try discriminate; auto.

Ltac heading_cases :=
  repeat match goal with
         | d : Heading |- _ => destruct d
         | a : bool |- _ => destruct a
         end; simpl; auto; try discriminate.

#[global] Instance tuple_le_total : Total tuple_le.
Proof.
  intros [[[x1 y1] d1] a1] [[[x2 y2] d2] a2]. tuple_order. all: heading_cases.
Qed.

#[global] Instance tuple_le_trans : Transitive tuple_le.
Proof.
  intros [[[x1 y1] d1] a1] [[[x2 y2] d2] a2] [[[x3 y3] d3] a3]. tuple_order.
  all: heading_cases.
Qed.

#[global] Instance tuple_le_antisymm : AntiSymm (=) tuple_le.
Proof.
  intros [[[x1 y1] d1] a1] [[[x2 y2] d2] a2]. tuple_order.
  all: assert (x1 = x2) by lia; assert (y1 = y2) by lia; subst.
  all: heading_cases.
Qed.

Lemma main_state_perm (board : Board) : main_state board ≡ₚ board_items board.
Proof. unfold main_state, sorted. apply merge_sort_Permutation. Qed.

Lemma main_state_sorted (board : Board) : StronglySorted tuple_le (main_state board).
Proof. unfold main_state, sorted. apply StronglySorted_merge_sort; apply _. Qed.

Lemma board_items_coords (board : Board) :
  (fun t : Z * Z * Heading * bool => t.1.1) <$> board_items board
  = fst <$> map_to_list board.
Proof.
  unfold board_items. rewrite <- list_fmap_compose. apply list_fmap_ext.
  intros i [[x y] [d a]] _. reflexivity.
Qed.

Lemma elem_of_board_items (board : Board) x y d a :
  (x, y, d, a) ∈ board_items board <-> board !! (x, y) = Some (d, a).
Proof.
  unfold board_items. rewrite list_elem_of_fmap. split.
  - intros ([[x' y'] [d' a']] & [= -> -> -> ->] & Hin).
    apply elem_of_map_to_list. exact Hin.
  - intros H. exists ((x, y), (d, a)). split; [reflexivity |].
    apply elem_of_map_to_list. exact H.
Qed.

Lemma tuple_le_coords a b : tuple_le a b -> coord_lt a b \/ a.1.1 = b.1.1.
Proof.
  destruct a as [[[x1 y1] d1] a1], b as [[[x2 y2] d2] a2]. unfold coord_lt. simpl.
  tuple_order. intros _. right. f_equal; lia.
Qed.

Lemma sorted_strict l :
  StronglySorted tuple_le l ->
  NoDup ((fun t : Z * Z * Heading * bool => t.1.1) <$> l) ->
  StronglySorted coord_lt l.
Proof.
  induction 1 as [| a l Hl IH Hall]; intros Hnd; [constructor |].
  rewrite fmap_cons in Hnd. apply NoDup_cons in Hnd as [Hnotin Hnd].
  constructor; [apply IH; exact Hnd |].
  rewrite Forall_forall in *. intros b Hb.
  destruct (tuple_le_coords a b (Hall b Hb)) as [Hlt | Heq]; [exact Hlt |].
  exfalso. apply Hnotin. rewrite Heq. apply list_elem_of_fmap. exists b.
  split; [reflexivity | exact Hb].
Qed.

(** X16.  What [main] prints: the sorted state holds exactly the ships of
    the final board, each once, in strictly ascending order of x and then
    y; one line is printed per ship; and any sorted rearrangement of the
    board's items is that same list, so the order of the dict plays no
    part. *)
Theorem printed_state_sorted_and_complete (final_board : Board) :
  (forall x y d a,
      In (x, y, d, a) (main_state final_board) <-> final_board !! (x, y) = Some (d, a))
  /\ StronglySorted coord_lt (main_state final_board)
  /\ length (main_output final_board) = size final_board
  /\ (forall l,
        Permutation l (board_items final_board) -> Sorted tuple_le l ->
        l = main_state final_board).
Proof.
  pose proof (main_state_perm final_board) as Hperm.
  pose proof (main_state_sorted final_board) as Hsorted.
  split; [| split; [| split]].
  - intros x y d a. rewrite <- list_elem_of_In, Hperm. apply elem_of_board_items.
  - apply sorted_strict; [exact Hsorted |].
    rewrite Hperm, board_items_coords. apply NoDup_fst_map_to_list.
  - unfold main_output. rewrite length_map, Hperm. unfold board_items.
    rewrite length_fmap. apply length_map_to_list.
  - intros l Hl Hs. apply (StronglySorted_unique tuple_le).
    + apply Sorted_StronglySorted; [apply _ | exact Hs].
    + exact Hsorted.
    + rewrite Hl, Hperm. reflexivity.
Qed.

(** ** Reading back what is printed *)

Lemma uint_chars_digits d :
  forallb is_digit
    (list_ascii_of_string (DecimalString.NilEmpty.string_of_uint d)) = true.
Proof. induction d; simpl; auto. Qed.

Lemma digit_step_value (acc : Z) (c : ascii) (v : Z) :
  Z.of_N (code c) - 48 = v -> 10 * acc + (Z.of_N (code c) - 48) = 10 * acc + v.
Proof. intros ->. reflexivity. Qed.

Lemma uint_chars_value_acc d : forall acc,
  fold_left (fun acc c => 10 * acc + (Z.of_N (code c) - 48))
    (list_ascii_of_string (DecimalString.NilEmpty.string_of_uint d)) (Z.pos acc)
  = Z.pos (Pos.of_uint_acc d acc).
Proof.
  induction d; intros acc;
    cbn [list_ascii_of_string DecimalString.NilEmpty.string_of_uint fold_left
         Pos.of_uint_acc]; [reflexivity | ..];
    rewrite <- IHd; f_equal; erewrite digit_step_value by (vm_compute; reflexivity);
    lia.
Qed.

Lemma uint_chars_value d :
  digits_value (list_ascii_of_string (DecimalString.NilEmpty.string_of_uint d))
  = Z.of_N (Pos.of_uint d).
Proof.
  unfold digits_value.
  induction d;
    cbn [list_ascii_of_string DecimalString.NilEmpty.string_of_uint fold_left
         Pos.of_uint]; [reflexivity | ..];
    erewrite digit_step_value by (vm_compute; reflexivity);
    [exact IHd | ..];
    match goal with
    | |- _ = Z.of_N (N.pos (Pos.of_uint_acc _ ?k)) => apply (uint_chars_value_acc d k)
    end.
Qed.

(** [int(str(n)) == n] for a non-negative int. *)
Lemma int_str_of_int n :
  0 <= n ->
  str_of_int n <> [] /\ forallb is_digit (str_of_int n) = true
  /\ digits_value (str_of_int n) = n.
Proof.
  intros Hn. destruct n as [| p | p]; [repeat split; discriminate | | lia].
  unfold str_of_int. simpl Z.to_int.
  pose proof (DecimalPos.Unsigned.to_uint_nonnil p) as Hnil.
  pose proof (DecimalPos.Unsigned.of_to p) as Hof.
  unfold DecimalString.NilZero.string_of_int, DecimalString.NilZero.string_of_uint.
  destruct (Pos.to_uint p) as [| d | d | d | d | d | d | d | d | d | d] eqn:Hd;
    [congruence | ..];
    (split; [discriminate |]; split; [apply uint_chars_digits |]);
    rewrite uint_chars_value, Hof; reflexivity.
Qed.

Lemma format_ship_strip t : strip (format_ship t) = format_ship t.
Proof.
  destruct t as [[[x y] d] a].
  pose proof (strip_core [] (format_ship (x, y, d, a)) []) as H.
  rewrite app_nil_r in H. apply H; try reflexivity.
  unfold format_ship. rewrite !rev_app_distr. destruct a; reflexivity.
Qed.

Lemma format_ship_fleet_text x y d a :
  0 <= x -> 0 <= y ->
  (length (str_of_int x) <= int_max_str_digits)%nat ->
  (length (str_of_int y) <= int_max_str_digits)%nat ->
  fleet_text (format_ship (x, y, d, a)) [mkShip x y d true].
Proof.
  intros Hx Hy Hxl Hyl.
  destruct (int_str_of_int x Hx) as (Hx0 & Hxd & Hxv).
  destruct (int_str_of_int y Hy) as (Hy0 & Hyd & Hyv).
  rewrite <- Hxv at 2. rewrite <- Hyv at 2.
  refine (fleet_text_group [] [] (str_of_int x) [] (py " ") (str_of_int y) []
            (py " ") d [] (if a then [] else py " SUNK") []
            _ _ _ _ _ _ _ Hx0 Hxd Hy0 Hyd Hxl Hyl _); try reflexivity.
  apply fleet_text_end. destruct a; reflexivity.
Qed.

(** X17.  What is printed can be read back: the line [main] prints for a
    ship with non-negative coordinates that [int] can read, as every
    coordinate that came from the input can, given to the reader as a fleet
    line, yields exactly one ship, at the same coordinate with the same
    heading; it is alive again, the SUNK mark lying outside the pattern. *)
Theorem printed_line_reads_back (x y : Z) (d : Heading) (a : bool) :
  0 <= x -> 0 <= y ->
  (length (str_of_int x) <= int_max_str_digits)%nat ->
  (length (str_of_int y) <= int_max_str_digits)%nat ->
  initial_ships_of_line (format_ship (x, y, d, a)) = Some [mkShip x y d true].
Proof.
  intros Hx Hy Hxl Hyl. unfold initial_ships_of_line. rewrite format_ship_strip.
  apply fleet_text_ships. apply format_ship_fleet_text; assumption.
Qed.

Lemma printed_line_reads_back_witness :
  initial_ships_of_line (format_ship (9, 2, E, false)) = Some [mkShip 9 2 E true].
Proof.
  apply (printed_line_reads_back 9 2 E false);
    first [lia | (unfold int_max_str_digits; simpl; lia)].
Defined.
